(** * 3d-oil-tanker: the per-frame vessel update and the camera-mode logic

    A shallow embedding of [src/main.js]: the [shipStats] and [keys] objects,
    the input handlers that write the four direction flags and the camera
    toggle, and [updatePhysics], the function run once per animation frame.
    The other copy of the script, [src/unnamed/part_000], shares the motion
    model; its [updatePhysics] is [Part000.updatePhysics].

    Numbers.  A JavaScript number is modelled as an exact rational ([Q]):
    the literals [0.02], [0.95], ... stand for the decimal fractions they
    denote and arithmetic is exact.  Rounding of IEEE doubles, [NaN] and the
    infinities are outside the model.  Equality of numbers is [Qeq] ([==]).

    three.js.  The engine is not part of the repository.  The vector
    operations whose definition is plain arithmetic ([lerp], [lerpVectors],
    [MathUtils.lerp], [add], [multiplyScalar]) are written out; what needs
    trigonometry or belongs to the orbit controls is taken from a [Host]. *)

From Stdlib Require Import QArith Qround Qpower Qabs Lqa ZArith List String Bool Lia.
From Stdlib Require Import Ascii Decimal DecimalString BinNat.
Import ListNotations.

Local Open Scope Q_scope.

(** ** JavaScript numbers *)

Module JS.

(** [a < b], [a > b] and [a >= b] on numbers. *)
Definition lt (a b : Q) : bool := negb (Qle_bool b a).
Definition gt (a b : Q) : bool := negb (Qle_bool a b).
Definition ge (a b : Q) : bool := Qle_bool b a.

(** [Math.abs], [Math.max], [Math.min], [Math.pow] with an integer
    exponent. *)
Definition abs (x : Q) : Q := if Qle_bool 0 x then x else - x.
Definition max (a b : Q) : Q := if Qle_bool a b then b else a.
Definition min (a b : Q) : Q := if Qle_bool a b then a else b.
Definition pow (x : Q) (n : Z) : Q := x ^ n.

(** [Math.PI] is the double nearest to pi, a dyadic rational. *)
Definition PI : Q := 884279719003555 # 281474976710656.

(** Truncation toward zero and the remainder operator [%], whose result
    takes the sign of the dividend. *)
Definition trunc (x : Q) : Z := if Qle_bool 0 x then Qfloor x else Qceiling x.
Definition rem (n d : Q) : Q := n - d * inject_Z (trunc (n / d)).

(** Decimal digits of a non-negative integer; ["0"] for zero. *)
Definition digits (n : Z) : string := NilZero.string_of_uint (N.to_uint (Z.to_N n)).

Fixpoint zeros (k : nat) : string :=
  match k with
  | O => EmptyString
  | S k' => String "0"%char (zeros k')
  end.

(** [Number.prototype.toFixed(fd)] for a finite number, after ECMA-262.
    For the magnitude [x], [n] is the integer nearest to [x * 10^fd] (the
    larger one on a tie), its digits are padded to [fd + 1] places and the
    point is put before the last [fd].  From [10^21] on the standard
    delegates to [ToString], here [big]. *)
Definition fixedDigits (big : Q -> string) (fd : nat) (x : Q) : string :=
  if ge x (10 ^ 21) then big x
  else
    let n := Qfloor (x * 10 ^ (Z.of_nat fd) + (1 # 2)) in
    let m := digits n in
    if Nat.eqb fd 0 then m
    else
      let k := String.length m in
      let m := if Nat.leb k fd then (zeros (fd + 1 - k) ++ m)%string else m in
      let k := String.length m in
      (substring 0 (k - fd) m ++ "." ++ substring (k - fd) fd m)%string.

(** A negative number prints as ["-"] and the digits of its magnitude. *)
Definition toFixed (big : Q -> string) (fd : nat) (x : Q) : string :=
  if lt x 0 then ("-" ++ fixedDigits big fd (- x))%string
  else fixedDigits big fd x.

End JS.

(** ** Vectors *)

Record Vector3 : Type := vec3 { vx : Q; vy : Q; vz : Q }.

(** Numeric equality of vectors, component by component. *)
Definition v3eq (a b : Vector3) : Prop :=
  vx a == vx b /\ vy a == vy b /\ vz a == vz b.

Infix "=v=" := v3eq (at level 70, no associativity).

Module THREE.

(** Components are kept in lowest terms, which leaves their value as it is
    and keeps a camera that eases toward the vessel frame after frame
    computable. *)
Definition add (a b : Vector3) : Vector3 :=
  vec3 (Qred (vx a + vx b)) (Qred (vy a + vy b)) (Qred (vz a + vz b)).

Definition multiplyScalar (a : Vector3) (s : Q) : Vector3 :=
  vec3 (Qred (vx a * s)) (Qred (vy a * s)) (Qred (vz a * s)).

(** [a.lerp(v, alpha)]: each component moves by [(v - a) * alpha]. *)
Definition lerp (a v : Vector3) (alpha : Q) : Vector3 :=
  vec3 (Qred (vx a + (vx v - vx a) * alpha))
       (Qred (vy a + (vy v - vy a) * alpha))
       (Qred (vz a + (vz v - vz a) * alpha)).

(** [lerpVectors(v1, v2, alpha)]. *)
Definition lerpVectors (v1 v2 : Vector3) (alpha : Q) : Vector3 :=
  vec3 (Qred (vx v1 + (vx v2 - vx v1) * alpha))
       (Qred (vy v1 + (vy v2 - vy v1) * alpha))
       (Qred (vz v1 + (vz v2 - vz v1) * alpha)).

(** [MathUtils.lerp(x, y, t)]. *)
Definition MathUtils_lerp (x y t : Q) : Q := (1 - t) * x + t * y.

(** [controls.mouseButtons.LEFT]. *)
Inductive MOUSE : Type := ROTATE | PAN.

End THREE.

(** ** What the engine and the runtime supply

    [applyYaw a v] turns [v] about the vertical axis by the angle [a]: the
    quaternion of an object whose Euler rotation is [(0, a, 0)], applied to a
    vector.  [lookAt eye target] is the orientation [Object3D.lookAt] gives a
    camera.  [orbitUpdate] is [OrbitControls.update]: from the controls' own
    state, [controls.target] and the camera it gives the new state, the new
    target (a pending pan moves it) and the new camera.  [bigToString]
    prints numbers from [10^21] on, and prints equal numbers alike. *)
Class Host : Type := {
  Quaternion : Type;
  initialOrientation : Quaternion;
  applyYaw : Q -> Vector3 -> Vector3;
  lookAt : Vector3 -> Vector3 -> Quaternion;
  OrbitState : Type;
  orbitInit : OrbitState;
  orbitUpdate : OrbitState -> Vector3 -> Vector3 * Quaternion ->
                OrbitState * Vector3 * (Vector3 * Quaternion);
  bigToString : Q -> string;
  bigToString_value : forall x y : Q, x == y -> bigToString x = bigToString y
}.

(** ** Program state *)

(** [shipStats]: [speed] and [rotationSpeed] change, the rest are the tuning
    constants of the motion model. *)
Record ShipStats : Type := {
  speed : Q;
  maxSpeed : Q;
  acceleration : Q;
  deceleration : Q;
  rotationSpeed : Q;
  maxRotationSpeed : Q;
  rotationAcceleration : Q;
  rotationDeceleration : Q;
  rotationDamping : Q
}.

Definition set_speed (v : Q) (s : ShipStats) : ShipStats :=
  {| speed := v; maxSpeed := maxSpeed s; acceleration := acceleration s;
     deceleration := deceleration s; rotationSpeed := rotationSpeed s;
     maxRotationSpeed := maxRotationSpeed s;
     rotationAcceleration := rotationAcceleration s;
     rotationDeceleration := rotationDeceleration s;
     rotationDamping := rotationDamping s |}.

Definition set_rotationSpeed (v : Q) (s : ShipStats) : ShipStats :=
  {| speed := speed s; maxSpeed := maxSpeed s; acceleration := acceleration s;
     deceleration := deceleration s; rotationSpeed := v;
     maxRotationSpeed := maxRotationSpeed s;
     rotationAcceleration := rotationAcceleration s;
     rotationDeceleration := rotationDeceleration s;
     rotationDamping := rotationDamping s |}.

(** [keys]. *)
Record Keys : Type := {
  forward : bool;
  backward : bool;
  left : bool;
  right : bool
}.

(** The four names a handler can write, [keys[action] = ...]. *)
Inductive Action : Type := Forward | Backward | Left | Right.

Definition set_key (a : Action) (b : bool) (k : Keys) : Keys :=
  match a with
  | Forward => {| forward := b; backward := backward k; left := left k; right := right k |}
  | Backward => {| forward := forward k; backward := b; left := left k; right := right k |}
  | Left => {| forward := forward k; backward := backward k; left := b; right := right k |}
  | Right => {| forward := forward k; backward := backward k; left := left k; right := b |}
  end.

(** [ship], the loaded model: only its roll is written by the program. *)
Record Ship : Type := { rotation_z : Q }.

(** A world matrix composed from a position and a yaw (the group is never
    scaled and has no parent transform). *)
Record Pose : Type := { origin : Vector3; heading : Q }.

(** [shipGroup]: position, [rotation.y], and the world matrix as of the last
    render. *)
Record Group : Type := {
  position : Vector3;
  rotation_y : Q;
  matrixWorld : Pose
}.

(** The [window.*] variables of the camera transition; [None] is
    [undefined]. *)
Record Window : Type := {
  wasFollowMode : option bool;
  isTransitioning : option bool;
  transitionStartTime : option Q;
  transitionStartPos : option Vector3;
  transitionTargetPos : option Vector3
}.

(** The elements [updatePhysics] looks up by id; [None] when
    [getElementById] returns [null].  The toggle carries [checked], the two
    readouts their [innerText]. *)
Record Document : Type := {
  cameraToggle : option bool;
  speedVal : option string;
  headingVal : option string
}.

Definition set_cameraToggle (t : option bool) (d : Document) : Document :=
  {| cameraToggle := t; speedVal := speedVal d; headingVal := headingVal d |}.

(** [performance.now()]: the reading of the [k]-th call made within one
    frame. *)
Definition Clock : Type := nat -> Q.

(** ** The motion model, on [shipStats] alone *)

(** Lines 296-307: throttle, or drag and the stop. *)
Definition accelerate (k : Keys) (s : ShipStats) : ShipStats :=
  if forward k then set_speed (speed s + acceleration s) s
  else if backward k then set_speed (speed s - acceleration s) s
  else
    let s := if JS.gt (speed s) 0 then set_speed (speed s - deceleration s) s else s in
    let s := if JS.lt (speed s) 0 then set_speed (speed s + deceleration s) s else s in
    if JS.lt (JS.abs (speed s)) (deceleration s) then set_speed 0 s else s.

(** Line 310. *)
Definition clampSpeed (s : ShipStats) : ShipStats :=
  set_speed (JS.max (JS.min (speed s) (maxSpeed s)) (- maxSpeed s / 2)) s.

(** Lines 317-319. *)
Definition speedFactor (s : ShipStats) : Q := JS.abs (speed s) / maxSpeed s.
Definition turnInfluence (s : ShipStats) : Q := JS.max (speedFactor s) (1 # 10).
Definition direction (s : ShipStats) : Q := if JS.ge (speed s) 0 then 1 else - (1).

(** Lines 321-334: rudder, or drift, damping and the stop. *)
Definition turn (k : Keys) (s : ShipStats) : ShipStats :=
  if left k then
    set_rotationSpeed
      (rotationSpeed s + rotationAcceleration s * turnInfluence s * direction s) s
  else if right k then
    set_rotationSpeed
      (rotationSpeed s - rotationAcceleration s * turnInfluence s * direction s) s
  else
    let s := if JS.gt (rotationSpeed s) 0
             then set_rotationSpeed (rotationSpeed s - rotationDeceleration s) s else s in
    let s := if JS.lt (rotationSpeed s) 0
             then set_rotationSpeed (rotationSpeed s + rotationDeceleration s) s else s in
    let s := set_rotationSpeed (rotationSpeed s * rotationDamping s) s in
    if JS.lt (JS.abs (rotationSpeed s)) (1 # 10000) then set_rotationSpeed 0 s else s.

(** Line 337. *)
Definition clampRotation (s : ShipStats) : ShipStats :=
  set_rotationSpeed
    (JS.max (JS.min (rotationSpeed s) (maxRotationSpeed s)) (- maxRotationSpeed s)) s.

(** Lines 296-337 in order. *)
Definition kinematics (k : Keys) (s : ShipStats) : ShipStats :=
  clampRotation (turn k (clampSpeed (accelerate k s))).

(** Line 420 and line 427: the two readouts. *)
Definition currentSpeed (big : Q -> string) (s : ShipStats) : string :=
  JS.toFixed big 1 (JS.abs (speed s) * 100).

Definition currentHeading (big : Q -> string) (g : Group) : string :=
  JS.toFixed big 0 (JS.rem (JS.abs (rotation_y g * (180 / JS.PI))) 360).

(** ** The scene, the handlers and the frame *)

Section Simulation.

Context {host : Host}.

Record Camera : Type := {
  camera_position : Vector3;
  quaternion : Quaternion
}.

(** [controls]: the fields the program writes, and the engine's own state. *)
Record OrbitControls : Type := {
  enabled : bool;
  target : Vector3;
  mouseButtons_LEFT : THREE.MOUSE;
  orbit : OrbitState
}.

Record World : Type := {
  shipStats : ShipStats;
  keys : Keys;
  ship : option Ship;
  shipGroup : Group;
  camera : Camera;
  controls : OrbitControls;
  window : Window;
  waterTime : Q;
  document : Document
}.

Definition set_keys (k : Keys) (w : World) : World :=
  {| shipStats := shipStats w; keys := k; ship := ship w; shipGroup := shipGroup w;
     camera := camera w; controls := controls w; window := window w;
     waterTime := waterTime w; document := document w |}.

Definition set_ship (s : option Ship) (w : World) : World :=
  {| shipStats := shipStats w; keys := keys w; ship := s; shipGroup := shipGroup w;
     camera := camera w; controls := controls w; window := window w;
     waterTime := waterTime w; document := document w |}.

Definition set_shipGroup (g : Group) (w : World) : World :=
  {| shipStats := shipStats w; keys := keys w; ship := ship w; shipGroup := g;
     camera := camera w; controls := controls w; window := window w;
     waterTime := waterTime w; document := document w |}.

Definition set_camera (c : Camera) (w : World) : World :=
  {| shipStats := shipStats w; keys := keys w; ship := ship w; shipGroup := shipGroup w;
     camera := c; controls := controls w; window := window w;
     waterTime := waterTime w; document := document w |}.

Definition set_controls (c : OrbitControls) (w : World) : World :=
  {| shipStats := shipStats w; keys := keys w; ship := ship w; shipGroup := shipGroup w;
     camera := camera w; controls := c; window := window w;
     waterTime := waterTime w; document := document w |}.

Definition set_window (x : Window) (w : World) : World :=
  {| shipStats := shipStats w; keys := keys w; ship := ship w; shipGroup := shipGroup w;
     camera := camera w; controls := controls w; window := x;
     waterTime := waterTime w; document := document w |}.

Definition set_waterTime (t : Q) (w : World) : World :=
  {| shipStats := shipStats w; keys := keys w; ship := ship w; shipGroup := shipGroup w;
     camera := camera w; controls := controls w; window := window w;
     waterTime := t; document := document w |}.

Definition set_document (d : Document) (w : World) : World :=
  {| shipStats := shipStats w; keys := keys w; ship := ship w; shipGroup := shipGroup w;
     camera := camera w; controls := controls w; window := window w;
     waterTime := waterTime w; document := d |}.

Definition set_enabled (b : bool) (c : OrbitControls) : OrbitControls :=
  {| enabled := b; target := target c; mouseButtons_LEFT := mouseButtons_LEFT c;
     orbit := orbit c |}.

Definition set_target (v : Vector3) (c : OrbitControls) : OrbitControls :=
  {| enabled := enabled c; target := v; mouseButtons_LEFT := mouseButtons_LEFT c;
     orbit := orbit c |}.

Definition set_LEFT (m : THREE.MOUSE) (c : OrbitControls) : OrbitControls :=
  {| enabled := enabled c; target := target c; mouseButtons_LEFT := m;
     orbit := orbit c |}.

(** [v.applyMatrix4(shipGroup.matrixWorld)]. *)
Definition applyMatrix4 (v : Vector3) (m : Pose) : Vector3 :=
  THREE.add (applyYaw (heading m) v) (origin m).

(** [shipGroup.translateZ(distance)]: along the group's own z axis. *)
Definition translateZ (distance : Q) (g : Group) : Group :=
  {| position :=
       THREE.add (position g)
                 (THREE.multiplyScalar (applyYaw (rotation_y g) (vec3 0 0 1)) distance);
     rotation_y := rotation_y g;
     matrixWorld := matrixWorld g |}.

(** [render()]: drawing the scene refreshes the world matrices. *)
Definition render (w : World) : World :=
  let g := shipGroup w in
  set_shipGroup {| position := position g; rotation_y := rotation_y g;
                   matrixWorld := {| origin := position g; heading := rotation_y g |} |} w.

(** Line 352, [cameraToggle && cameraToggle.checked], as a condition. *)
Definition isFollowMode (d : Document) : bool :=
  match cameraToggle d with
  | Some checked => checked
  | None => false
  end.

Definition orDefault {A : Type} (o : option A) (d : A) : A :=
  match o with
  | Some a => a
  | None => d
  end.

(** Lines 351-411. *)
Definition cameraLogic (clock : Clock) (w : World) : World :=
  let was := orDefault (wasFollowMode (window w)) true in
  let trans := orDefault (isTransitioning (window w)) false in
  let t0 := orDefault (transitionStartTime (window w)) 0 in
  let p0 := orDefault (transitionStartPos (window w)) (vec3 0 0 0) in
  let p1 := orDefault (transitionTargetPos (window w)) (vec3 0 0 0) in
  if isFollowMode (document w) then
    let cameraOffset := applyMatrix4 (vec3 0 30 80) (matrixWorld (shipGroup w)) in
    let pos := THREE.lerp (camera_position (camera w)) cameraOffset (1 # 20) in
    set_window {| wasFollowMode := Some true; isTransitioning := Some false;
                  transitionStartTime := Some t0; transitionStartPos := Some p0;
                  transitionTargetPos := Some p1 |}
      (set_controls (set_enabled false (controls w))
         (set_camera {| camera_position := pos;
                        quaternion := lookAt pos (position (shipGroup w)) |} w))
  else
    let '(calls, trans, t0, p0, p1) :=
      if was then
        (1%nat, true, clock 0%nat, camera_position (camera w),
         applyMatrix4 (vec3 0 60 150) (matrixWorld (shipGroup w)))
      else (0%nat, trans, t0, p0, p1) in
    if trans then
      let duration := 1500 in
      let elapsed := clock calls - t0 in
      let progress := JS.min (elapsed / duration) 1 in
      let ease := 1 - JS.pow (1 - progress) 3 in
      let pos := THREE.lerpVectors p0 p1 ease in
      let finished := JS.ge progress 1 in
      set_window {| wasFollowMode := Some false;
                    isTransitioning := Some (if finished then false else true);
                    transitionStartTime := Some t0; transitionStartPos := Some p0;
                    transitionTargetPos := Some p1 |}
        (set_controls (if finished
                       then set_target (position (shipGroup w)) (controls w)
                       else controls w)
           (set_camera {| camera_position := pos;
                          quaternion := lookAt pos (position (shipGroup w)) |} w))
    else
      let '(o, tgt, (pos, q)) :=
        orbitUpdate (orbit (controls w)) (target (controls w))
                    (camera_position (camera w), quaternion (camera w)) in
      set_window {| wasFollowMode := Some false; isTransitioning := Some false;
                    transitionStartTime := Some t0; transitionStartPos := Some p0;
                    transitionTargetPos := Some p1 |}
        (set_controls {| enabled := true; target := tgt;
                         mouseButtons_LEFT := mouseButtons_LEFT (controls w);
                         orbit := o |}
           (set_camera {| camera_position := pos; quaternion := q |} w)).

(** Lines 416-431: a readout is written when its element exists and its
    text differs. *)
Definition writeText (el : option string) (text : string) : option string :=
  match el with
  | Some old => if String.eqb old text then Some old else Some text
  | None => None
  end.

Definition updateReadouts (w : World) : World :=
  let d := document w in
  set_document
    {| cameraToggle := cameraToggle d;
       speedVal := writeText (speedVal d) (currentSpeed bigToString (shipStats w));
       headingVal := writeText (headingVal d) (currentHeading bigToString (shipGroup w)) |}
    w.

(** Lines 295-348: the motion model, then yaw, position and roll. *)
Definition moveShip (sh : Ship) (w : World) : World :=
  let stats := kinematics (keys w) (shipStats w) in
  let g := shipGroup w in
  let g := {| position := position g;
              rotation_y := rotation_y g + rotationSpeed stats;
              matrixWorld := matrixWorld g |} in
  let g := translateZ (- speed stats) g in
  let targetRoll := rotationSpeed stats * 10 in
  let sh := {| rotation_z := THREE.MathUtils_lerp (rotation_z sh) targetRoll (1 # 20) |} in
  {| shipStats := stats; keys := keys w; ship := Some sh; shipGroup := g;
     camera := camera w; controls := controls w; window := window w;
     waterTime := waterTime w; document := document w |}.

(** Line 414. *)
Definition updateWater (w : World) : World :=
  set_waterTime (waterTime w + 1 / 60) w.

(** [updatePhysics()]. *)
Definition updatePhysics (clock : Clock) (w : World) : World :=
  match ship w with
  | None => w
  | Some sh => updateReadouts (updateWater (cameraLogic clock (moveShip sh w)))
  end.

(** [animate()]: draw, then update. *)
Definition animate (clock : Clock) (w : World) : World :=
  updatePhysics clock (render w).

(** *** Input handlers *)

Definition isCode (code a b : string) : bool :=
  String.eqb code a || String.eqb code b.

(** The [keydown] listener. *)
Definition keydown (code : string) (w : World) : World :=
  if isCode code "ArrowUp" "KeyW" then set_keys (set_key Forward true (keys w)) w
  else if isCode code "ArrowDown" "KeyS" then set_keys (set_key Backward true (keys w)) w
  else if isCode code "ArrowLeft" "KeyA" then set_keys (set_key Left true (keys w)) w
  else if isCode code "ArrowRight" "KeyD" then set_keys (set_key Right true (keys w)) w
  else if String.eqb code "KeyC" then
    set_document (set_cameraToggle (option_map negb (cameraToggle (document w)))
                                   (document w)) w
  else if isCode code "KeyH" "Space" then
    match cameraToggle (document w) with
    | Some false => set_controls (set_LEFT THREE.PAN (controls w)) w
    | _ => w
    end
  else w.

(** The [keyup] listener. *)
Definition keyup (code : string) (w : World) : World :=
  if isCode code "ArrowUp" "KeyW" then set_keys (set_key Forward false (keys w)) w
  else if isCode code "ArrowDown" "KeyS" then set_keys (set_key Backward false (keys w)) w
  else if isCode code "ArrowLeft" "KeyA" then set_keys (set_key Left false (keys w)) w
  else if isCode code "ArrowRight" "KeyD" then set_keys (set_key Right false (keys w)) w
  else if isCode code "KeyH" "Space" then
    set_controls (set_LEFT THREE.ROTATE (controls w)) w
  else w.

(** The on-screen buttons, [startAction] and [endAction]. *)
Definition startAction (a : Action) (w : World) : World :=
  set_keys (set_key a true (keys w)) w.

Definition endAction (a : Action) (w : World) : World :=
  set_keys (set_key a false (keys w)) w.

(** The loader's callback: [ship = gltf.scene]. *)
Definition onLoad (w : World) : World :=
  set_ship (Some {| rotation_z := 0 |}) w.

(** What can happen to the page. *)
Inductive Event : Type :=
| Keydown (code : string)
| Keyup (code : string)
| PointerDown (a : Action)
| PointerUp (a : Action)
| ToggleClick
| ModelLoaded
| AnimationFrame (clock : Clock).

Definition handle (e : Event) (w : World) : World :=
  match e with
  | Keydown code => keydown code w
  | Keyup code => keyup code w
  | PointerDown a => startAction a w
  | PointerUp a => endAction a w
  | ToggleClick =>
    set_document (set_cameraToggle (option_map negb (cameraToggle (document w)))
                                   (document w)) w
  | ModelLoaded => onLoad w
  | AnimationFrame clock => animate clock w
  end.

Fixpoint run (es : list Event) (w : World) : World :=
  match es with
  | [] => w
  | e :: es' => run es' (handle e w)
  end.

(** Lines 101-118 and the scene set-up; the page's elements are those of
    [d]. *)
Definition initialStats : ShipStats :=
  {| speed := 0; maxSpeed := 2; acceleration := 2 # 100; deceleration := 1 # 100;
     rotationSpeed := 0; maxRotationSpeed := 2 # 100;
     rotationAcceleration := 5 # 10000; rotationDeceleration := 5 # 10000;
     rotationDamping := 95 # 100 |}.

Definition initialWorld (d : Document) : World :=
  {| shipStats := initialStats;
     keys := {| forward := false; backward := false; left := false; right := false |};
     ship := None;
     shipGroup := {| position := vec3 0 0 0; rotation_y := 0;
                     matrixWorld := {| origin := vec3 0 0 0; heading := 0 |} |};
     camera := {| camera_position := vec3 30 30 100; quaternion := initialOrientation |};
     controls := {| enabled := true; target := vec3 0 10 0;
                    mouseButtons_LEFT := THREE.ROTATE; orbit := orbitInit |};
     window := {| wasFollowMode := None; isTransitioning := None;
                  transitionStartTime := None; transitionStartPos := None;
                  transitionTargetPos := None |};
     waterTime := 0;
     document := d |}.

End Simulation.

(** ** The second copy of the script

    [src/unnamed/part_000] has the same [shipStats], [keys] and motion model
    (its lines 175-227 are lines 296-348 of [src/main.js]), a camera that
    always follows, and readouts that are written on every frame. *)
Module Part000.

Definition updatePhysics {host : Host} (w : World) : World :=
  match ship w with
  | None => w
  | Some sh =>
    let w := moveShip sh w in
    let cameraOffset := applyMatrix4 (vec3 0 30 80) (matrixWorld (shipGroup w)) in
    let pos := THREE.lerp (camera_position (camera w)) cameraOffset (1 # 20) in
    let w := set_camera {| camera_position := pos;
                           quaternion := lookAt pos (position (shipGroup w)) |} w in
    let w := updateWater w in
    let d := document w in
    set_document
      {| cameraToggle := cameraToggle d;
         speedVal := option_map (fun _ => currentSpeed bigToString (shipStats w))
                                (speedVal d);
         headingVal := option_map (fun _ => currentHeading bigToString (shipGroup w))
                                  (headingVal d) |}
      w
  end.

End Part000.

(** ** A host to run the model on

    Rotations are exact and rational: the half-angle tangent is taken to be
    the half angle, which gives a proper rotation matrix for every yaw.  An
    orientation is recorded as the pair it was computed from, and the orbit
    controls leave the target and the camera where they are. *)
Definition rationalYaw (a : Q) (v : Vector3) : Vector3 :=
  let t := Qred (a / 2) in
  let c := Qred ((1 - t * t) / (1 + t * t)) in
  let s := Qred ((2 * t) / (1 + t * t)) in
  vec3 (Qred (vx v * c + vz v * s)) (vy v) (Qred (vz v * c - vx v * s)).

#[export] Instance rationalHost : Host := {|
  Quaternion := Vector3 * Vector3;
  initialOrientation := (vec3 30 30 100, vec3 0 0 0);
  applyYaw := rationalYaw;
  lookAt := fun eye tgt => (eye, tgt);
  OrbitState := unit;
  orbitInit := tt;
  orbitUpdate := fun o tgt cam => (o, tgt, cam);
  bigToString := fun _ => "1e+21"%string;
  bigToString_value := fun _ _ _ => eq_refl
|}.

(** A page with all three elements, the toggle checked or not. *)
Definition page (checked : bool) : Document :=
  {| cameraToggle := Some checked; speedVal := Some "0.0"%string;
     headingVal := Some "0"%string |}.

(** A clock that reads [t] at every call. *)
Definition at_time (t : Q) : Clock := fun _ => t.

(** A clock that reads [a] at the first call of a frame and [b] from then
    on. *)
Definition readings (a b : Q) : Clock :=
  fun k => match k with O => a | S _ => b end.

(** ** Vocabulary of the statements *)

(** The tuning constants of a [shipStats]. *)
Definition constants (s : ShipStats) : Q * Q * Q * Q * Q * Q * Q :=
  (maxSpeed s, acceleration s, deceleration s, maxRotationSpeed s,
   rotationAcceleration s, rotationDeceleration s, rotationDamping s).

(** The invariant of every run: the constants are those of lines 101-111
    and both speeds are within their clamps. *)
Definition wellTuned (s : ShipStats) : Prop :=
  constants s = constants initialStats /\
  (- maxSpeed s / 2 <= speed s /\ speed s <= maxSpeed s) /\
  (- maxRotationSpeed s <= rotationSpeed s /\ rotationSpeed s <= maxRotationSpeed s).

(** The sign function of the specification: [1], [-1], and [0] at zero. *)
Definition sign (x : Q) : Q :=
  if JS.gt x 0 then 1 else if JS.lt x 0 then - (1) else 0.


Section Runs.

Context {host : Host}.


(** [P] holds of the clock and the world at every animation frame of the
    run [es] from [w]. *)
Fixpoint atEveryFrame (P : Clock -> World -> Prop) (es : list Event) (w : World) : Prop :=
  match es with
  | [] => True
  | e :: es' =>
    match e with
    | AnimationFrame c => P c w
    | _ => True
    end /\ atEveryFrame P es' (handle e w)
  end.


(** The camera mode as the page shows it: the latch, the transition flag
    and whether the orbit controls respond. *)
Definition modeState (w : World) : option bool * option bool * bool :=
  (wasFollowMode (window w), isTransitioning (window w), enabled (controls w)).

End Runs.

(** The page of [rationalHost] right after the model has loaded, with the
    flags [k] held and the camera toggle as given. *)
Definition afloat (k : Keys) (checked : bool) : World :=
  set_keys k (onLoad (initialWorld (page checked))).

Definition flags (f b l r : bool) : Keys :=
  {| forward := f; backward := b; left := l; right := r |}.

(** The [window] variables while a transition that started at [t0] from
    [p0] toward [p1] is under way, and once it is over. *)
Definition transitionVars (running : bool) (t0 : Q) (p0 p1 : Vector3) : Window :=
  {| wasFollowMode := Some false; isTransitioning := Some running;
     transitionStartTime := Some t0; transitionStartPos := Some p0;
     transitionTargetPos := Some p1 |}.

(** The loaded page of [rationalHost] with the vessel already making the
    speed [v] and no flag held. *)
Definition underway (v : Q) (checked : bool) : World :=
  let w := afloat (flags false false false false) checked in
  {| shipStats := set_speed v (shipStats w); keys := keys w; ship := ship w;
     shipGroup := shipGroup w; camera := camera w; controls := controls w;
     window := window w; waterTime := waterTime w; document := document w |}.

(** ** Proof automation for comparisons

    [js_split] splits on every comparison the goal or a hypothesis branches
    on and leaves the outcome as a fact of the order relation. *)
Ltac js_fact E :=
  match type of E with
  | Qle_bool ?a ?b = true => apply Qle_bool_iff in E
  | Qle_bool ?a ?b = false =>
    let F := fresh "E" in
    assert (F : b < a)
      by (apply Qnot_le_lt; intro F; apply Qle_bool_iff in F; congruence);
    clear E
  end.

Ltac js_split :=
  repeat match goal with
  | |- context [Qle_bool ?a ?b] =>
    let E := fresh "E" in destruct (Qle_bool a b) eqn:E; js_fact E
  | H : context [Qle_bool ?a ?b] |- _ =>
    let E := fresh "E" in destruct (Qle_bool a b) eqn:E; js_fact E
  end.

Ltac js_unfold :=
  unfold JS.max, JS.min, JS.abs, JS.lt, JS.gt, JS.ge in *; simpl negb in *.

(** Division by a literal becomes multiplication by its inverse. *)
Ltac js_div :=
  unfold Qdiv in *;
  change (/ 2) with (1 # 2) in *;
  change (/ 1500) with (1 # 1500) in *.

Ltac js_arith := js_unfold; js_split; js_div; try lra.

(** ** Vocabulary of the further properties *)

(** The events that come from the user. *)
Definition isInput (e : Event) : bool :=
  match e with
  | AnimationFrame _ | ModelLoaded => false
  | _ => true
  end.

Definition isLoad (e : Event) : bool :=
  match e with
  | ModelLoaded => true
  | _ => false
  end.

(** [keys[action]]. *)
Definition flag (a : Action) (k : Keys) : bool :=
  match a with
  | Forward => forward k
  | Backward => backward k
  | Left => left k
  | Right => right k
  end.

(** The two key codes of lines 180-195 and 259-274 that write each flag. *)
Definition codes (a : Action) : string * string :=
  match a with
  | Forward => ("ArrowUp", "KeyW")
  | Backward => ("ArrowDown", "KeyS")
  | Left => ("ArrowLeft", "KeyA")
  | Right => ("ArrowRight", "KeyD")
  end%string.

Definition isCodeOf (a : Action) (code : string) : Prop :=
  code = fst (codes a) \/ code = snd (codes a).

(** Line 397 as a function of the elapsed time. *)
Definition easeOutCubic (elapsed : Q) : Q :=
  1 - JS.pow (1 - JS.min (elapsed / 1500) 1) 3.

(** Port for starboard: the rudder flags exchanged, the yaw rate negated. *)
Definition swapRudder (k : Keys) : Keys :=
  {| forward := forward k; backward := backward k; left := right k; right := left k |}.

Definition mirror (s : ShipStats) : ShipStats :=
  set_rotationSpeed (- rotationSpeed s) s.

(** Lines 327-333 on the yaw rate alone. *)
Definition drift (r dec damp : Q) : Q :=
  let r := if JS.gt r 0 then r - dec else r in
  let r := if JS.lt r 0 then r + dec else r in
  let r := r * damp in
  if JS.lt (JS.abs r) (1 # 10000) then 0 else r.


(** The part of the world no user event writes. *)
Definition scene {host : Host} (w : World) :=
  (shipStats w, ship w, shipGroup w, camera w, window w, waterTime w,
   speedVal (document w), headingVal (document w),
   enabled (controls w), target (controls w)).


(** What is left for the drift to remove from a yaw rate [r]: a negative
    rate counts one [dec] more than its magnitude. *)
Definition yawPotential (r dec : Q) : Q :=
  if JS.lt r 0 then - r + dec else r.




(** ** The page around the scene: classes, cursor and the loading text

    Lines 121-175 and 215-254: the on-screen keys and their highlight, the
    pan hint, and the statistics card.  A class list is represented by
    whether it holds the one class the script adds to or removes from it;
    [None] is an element the page does not have. *)

(** The ids of the four on-screen keys. *)
Inductive KeyId : Type := key_w | key_s | key_a | key_d.

(** [keyMap], lines 121-130. *)
Definition keyMap (code : string) : option KeyId :=
  if isCode code "KeyW" "ArrowUp" then Some key_w
  else if isCode code "KeyS" "ArrowDown" then Some key_s
  else if isCode code "KeyA" "ArrowLeft" then Some key_a
  else if isCode code "KeyD" "ArrowRight" then Some key_d
  else None.

(** [onScreenKeys], lines 144-149. *)
Definition onScreenKeys (id : KeyId) : Action :=
  match id with
  | key_w => Forward
  | key_s => Backward
  | key_a => Left
  | key_d => Right
  end.

Record Styles : Type := {
  key_w_active : option bool;
  key_s_active : option bool;
  key_a_active : option bool;
  key_d_active : option bool;
  panHint_disabled : option bool;
  statsCard_visible : option bool;
  statsToggle_active : option bool;
  body_statsVisible : bool;
  cursor : string;
  loading_display : option string
}.

(** Whether the element [id] carries the class [active]. *)
Definition keyActive (st : Styles) (id : KeyId) : option bool :=
  match id with
  | key_w => key_w_active st
  | key_s => key_s_active st
  | key_a => key_a_active st
  | key_d => key_d_active st
  end.

Definition set_keyActive (id : KeyId) (b : option bool) (st : Styles) : Styles :=
  {| key_w_active := match id with key_w => b | _ => key_w_active st end;
     key_s_active := match id with key_s => b | _ => key_s_active st end;
     key_a_active := match id with key_a => b | _ => key_a_active st end;
     key_d_active := match id with key_d => b | _ => key_d_active st end;
     panHint_disabled := panHint_disabled st;
     statsCard_visible := statsCard_visible st;
     statsToggle_active := statsToggle_active st;
     body_statsVisible := body_statsVisible st;
     cursor := cursor st;
     loading_display := loading_display st |}.

Definition set_panHint (b : option bool) (st : Styles) : Styles :=
  {| key_w_active := key_w_active st; key_s_active := key_s_active st;
     key_a_active := key_a_active st; key_d_active := key_d_active st;
     panHint_disabled := b;
     statsCard_visible := statsCard_visible st;
     statsToggle_active := statsToggle_active st;
     body_statsVisible := body_statsVisible st;
     cursor := cursor st;
     loading_display := loading_display st |}.

Definition set_stats (v : bool) (st : Styles) : Styles :=
  {| key_w_active := key_w_active st; key_s_active := key_s_active st;
     key_a_active := key_a_active st; key_d_active := key_d_active st;
     panHint_disabled := panHint_disabled st;
     statsCard_visible := Some v;
     statsToggle_active := Some v;
     body_statsVisible := v;
     cursor := cursor st;
     loading_display := loading_display st |}.

Definition set_cursor (c : string) (st : Styles) : Styles :=
  {| key_w_active := key_w_active st; key_s_active := key_s_active st;
     key_a_active := key_a_active st; key_d_active := key_d_active st;
     panHint_disabled := panHint_disabled st;
     statsCard_visible := statsCard_visible st;
     statsToggle_active := statsToggle_active st;
     body_statsVisible := body_statsVisible st;
     cursor := c;
     loading_display := loading_display st |}.

Definition set_loading (d : option string) (st : Styles) : Styles :=
  {| key_w_active := key_w_active st; key_s_active := key_s_active st;
     key_a_active := key_a_active st; key_d_active := key_d_active st;
     panHint_disabled := panHint_disabled st;
     statsCard_visible := statsCard_visible st;
     statsToggle_active := statsToggle_active st;
     body_statsVisible := body_statsVisible st;
     cursor := cursor st;
     loading_display := d |}.

(** [setKeyActive(code, active)], lines 132-141. *)
Definition setKeyActive (code : string) (active : bool) (st : Styles) : Styles :=
  match keyMap code with
  | Some id =>
    match keyActive st id with
    | Some _ => set_keyActive id (Some active) st
    | None => st
    end
  | None => st
  end.

(** [updateUIState()], lines 215-225. *)
Definition updateUIState (d : Document) (st : Styles) : Styles :=
  match cameraToggle d, panHint_disabled st with
  | Some checked, Some _ => set_panHint (Some checked) st
  | _, _ => st
  end.

(** The click listener of lines 239-253, present when both elements are. *)
Definition statsClick (st : Styles) : Styles :=
  match statsCard_visible st, statsToggle_active st with
  | Some isVisible, Some _ => set_stats (negb isVisible) st
  | _, _ => st
  end.

Section PageModel.

Context {host : Host}.

Record Page : Type := { world : World; styles : Styles }.

(** The [keydown] listener with its effects on the page, lines 177-213. *)
Definition pageKeydown (code : string) (p : Page) : Page :=
  let st := setKeyActive code true (styles p) in
  let w := keydown code (world p) in
  let st :=
    if String.eqb code "KeyC" then
      match cameraToggle (document (world p)) with
      | Some _ => updateUIState (document w) st
      | None => st
      end
    else if isCode code "KeyH" "Space" then
      match cameraToggle (document (world p)) with
      | Some false => set_cursor "grab" st
      | _ => st
      end
    else st in
  {| world := w; styles := st |}.

(** The [keyup] listener, lines 256-282. *)
Definition pageKeyup (code : string) (p : Page) : Page :=
  let st := setKeyActive code false (styles p) in
  let st := if isCode code "KeyH" "Space" then set_cursor "default" st else st in
  {| world := keyup code (world p); styles := st |}.

(** Lines 156-173: the listeners of an on-screen key exist when its element
    does. *)
Definition pagePointerStart (id : KeyId) (p : Page) : Page :=
  match keyActive (styles p) id with
  | Some _ => {| world := startAction (onScreenKeys id) (world p);
                 styles := set_keyActive id (Some true) (styles p) |}
  | None => p
  end.

Definition pagePointerEnd (id : KeyId) (p : Page) : Page :=
  match keyActive (styles p) id with
  | Some _ => {| world := endAction (onScreenKeys id) (world p);
                 styles := set_keyActive id (Some false) (styles p) |}
  | None => p
  end.

(** A click on the toggle: the browser flips [checked], then the [change]
    listener of line 230 runs. *)
Definition pageToggleChange (p : Page) : Page :=
  match cameraToggle (document (world p)) with
  | Some _ =>
    let w := handle ToggleClick (world p) in
    {| world := w; styles := updateUIState (document w) (styles p) |}
  | None => p
  end.

(** The loader's callback with lines 93-95. *)
Definition pageLoaded (p : Page) : Page :=
  {| world := onLoad (world p);
     styles := match loading_display (styles p) with
               | Some _ => set_loading (Some "none"%string) (styles p)
               | None => styles p
               end |}.

Inductive PageEvent : Type :=
| KeyPressed (code : string)
| KeyReleased (code : string)
| PointerStarted (id : KeyId)
| PointerEnded (id : KeyId)
| ToggleChanged
| StatsClicked
| Loaded
| Frame (clock : Clock).

Definition pageHandle (e : PageEvent) (p : Page) : Page :=
  match e with
  | KeyPressed code => pageKeydown code p
  | KeyReleased code => pageKeyup code p
  | PointerStarted id => pagePointerStart id p
  | PointerEnded id => pagePointerEnd id p
  | ToggleChanged => pageToggleChange p
  | StatsClicked => {| world := world p; styles := statsClick (styles p) |}
  | Loaded => pageLoaded p
  | Frame clock => {| world := animate clock (world p); styles := styles p |}
  end.

Fixpoint pageRun (es : list PageEvent) (p : Page) : Page :=
  match es with
  | [] => p
  | e :: es' => pageRun es' (pageHandle e p)
  end.

(** The page once the script has run to its end: the scene of
    [initialWorld], the classes the markup gave, and line 231. *)
Definition initialPage (d : Document) (st : Styles) : Page :=
  {| world := initialWorld d;
     styles := match cameraToggle d with
               | Some _ => updateUIState d st
               | None => st
               end |}.

(** Every on-screen key that exists is highlighted exactly when its flag is
    set. *)
Definition highlightsMatch (p : Page) : Prop :=
  forall (id : KeyId) (b : bool),
    keyActive (styles p) id = Some b -> b = flag (onScreenKeys id) (keys (world p)).

(** The pan hint is greyed out exactly when the toggle is checked. *)
Definition hintMatches (p : Page) : Prop :=
  forall b c : bool,
    panHint_disabled (styles p) = Some b ->
    cameraToggle (document (world p)) = Some c -> b = c.

(** The cursor is the grabbing hand exactly when the left button pans. *)
Definition cursorMatches (p : Page) : Prop :=
  mouseButtons_LEFT (controls (world p)) = THREE.PAN <-> cursor (styles p) = "grab"%string.

End PageModel.

(** Markup with every element present and no class set. *)
Definition plainStyles : Styles :=
  {| key_w_active := Some false; key_s_active := Some false;
     key_a_active := Some false; key_d_active := Some false;
     panHint_disabled := Some false; statsCard_visible := Some false;
     statsToggle_active := Some false; body_statsVisible := false;
     cursor := ""%string; loading_display := Some ""%string |}.


(** The three classes of the statistics card say the same. *)
Definition statsInSync (st : Styles) : Prop :=
  exists v : bool,
    statsCard_visible st = Some v /\ statsToggle_active st = Some v /\
    body_statsVisible st = v.

(** Splits on whether [code] is the literal [s]. *)
Ltac by_code code s :=
  let E := fresh "E" in
  destruct (String.eqb code s) eqn:E;
  [ apply String.eqb_eq in E; subst code | ]; cbn [orb].


(** The roll of the model, if it has loaded, is within [limit]. *)
Definition rollWithin (limit : Q) (s : option Ship) : Prop :=
  match s with
  | Some sh => - limit <= rotation_z sh /\ rotation_z sh <= limit
  | None => True
  end.

(** What of the world the motion model reads and writes: everything but the
    camera, the orbit controls and the transition variables. *)
Definition vessel {host : Host} (w : World) :=
  (shipStats w, keys w, ship w, shipGroup w, waterTime w, document w).

(** Two events that differ at most in what the clock reads. *)
Definition sameButClock (e e' : Event) : Prop :=
  match e, e' with
  | AnimationFrame _, AnimationFrame _ => True
  | _, _ => e = e'
  end.


(** ** The same program in binary64 arithmetic

    Where a property turns on how the arithmetic rounds, the program is read
    again with JavaScript's numbers as they are: IEEE 754 binary64.  A finite
    double is the rational it denotes; every [+], [-], [*] and [/] of the
    source is the exact operation followed by [round], rounding to nearest
    with ties to even, 53 bits of significand and gradual underflow below
    [2^-1022]; a decimal literal is the double nearest to it.  Comparisons,
    [Math.abs], [Math.min], [Math.max], unary minus and [%] are exact on
    doubles.  Overflow to an infinity and [NaN] stay outside the model: a
    number counts as [finite] when rounding keeps it and it is below
    [2^1024].  Zero has no sign here; the program never divides by a zero
    it computed.

    The definitions below are those of the exact model, line for line, with
    the rounding put in. *)
Module Binary64.

Definition pow2 (e : Z) : Q := 2 ^ e.

(** [floor (log2 q)] for a positive [q]. *)
Definition binade (q : Q) : Z :=
  let e := (Z.log2 (Qnum q) - Z.log2 (Zpos (Qden q)))%Z in
  if Qle_bool (pow2 e) q then e else (e - 1)%Z.

(** The nearest integer, the even one on a tie. *)
Definition nearestEven (x : Q) : Z :=
  let f := Qfloor x in
  match Qcompare (x - inject_Z f) (1 # 2) with
  | Lt => f
  | Gt => (f + 1)%Z
  | Eq => if Z.even f then f else (f + 1)%Z
  end.

(** The exponent of the unit in the last place: 52 below the binade, and
    never below that of the subnormal numbers. *)
Definition ulp (q : Q) : Z :=
  if Qeq_bool q 0 then (-1074)%Z else Z.max (binade (Qabs q) - 52) (-1074).

(** The double nearest to [q], in lowest terms. *)
Definition round (q : Q) : Q :=
  let u := ulp q in Qred (inject_Z (nearestEven (q / pow2 u)) * pow2 u).

Definition finite (x : Q) : Prop :=
  round x == x /\ - pow2 1024 < x /\ x < pow2 1024.

(** The operators and the literals of the source. *)
Definition add (a b : Q) : Q := round (a + b).
Definition sub (a b : Q) : Q := round (a - b).
Definition mul (a b : Q) : Q := round (a * b).
Definition div (a b : Q) : Q := round (a / b).
Definition literal (q : Q) : Q := round q.

(** [Math.pow] with an integer exponent, taken to return the double nearest
    to the power; the program's one call has exponent 3. *)
Definition pow (x : Q) (n : Z) : Q := round (x ^ n).

(** *** Vectors *)

(** [a.add(b)], [a.multiplyScalar(s)], [a.lerp(v, alpha)],
    [lerpVectors(v1, v2, alpha)] and [MathUtils.lerp(x, y, t)]. *)
Definition addV (a b : Vector3) : Vector3 :=
  vec3 (add (vx a) (vx b)) (add (vy a) (vy b)) (add (vz a) (vz b)).

Definition multiplyScalar (a : Vector3) (s : Q) : Vector3 :=
  vec3 (mul (vx a) s) (mul (vy a) s) (mul (vz a) s).

Definition lerp (a v : Vector3) (alpha : Q) : Vector3 :=
  vec3 (add (vx a) (mul (sub (vx v) (vx a)) alpha))
       (add (vy a) (mul (sub (vy v) (vy a)) alpha))
       (add (vz a) (mul (sub (vz v) (vz a)) alpha)).

Definition lerpVectors (v1 v2 : Vector3) (alpha : Q) : Vector3 :=
  vec3 (add (vx v1) (mul (sub (vx v2) (vx v1)) alpha))
       (add (vy v1) (mul (sub (vy v2) (vy v1)) alpha))
       (add (vz v1) (mul (sub (vz v2) (vz v1)) alpha)).

Definition MathUtils_lerp (x y t : Q) : Q := add (mul (sub 1 t) x) (mul t y).

(** *** The motion model *)

(** Lines 296-307. *)
Definition accelerate (k : Keys) (s : ShipStats) : ShipStats :=
  if forward k then set_speed (add (speed s) (acceleration s)) s
  else if backward k then set_speed (sub (speed s) (acceleration s)) s
  else
    let s := if JS.gt (speed s) 0 then set_speed (sub (speed s) (deceleration s)) s else s in
    let s := if JS.lt (speed s) 0 then set_speed (add (speed s) (deceleration s)) s else s in
    if JS.lt (JS.abs (speed s)) (deceleration s) then set_speed 0 s else s.

(** Line 310. *)
Definition clampSpeed (s : ShipStats) : ShipStats :=
  set_speed (JS.max (JS.min (speed s) (maxSpeed s)) (div (- maxSpeed s) 2)) s.

(** Lines 317-318; line 319 is [direction], which has no arithmetic. *)
Definition speedFactor (s : ShipStats) : Q := div (JS.abs (speed s)) (maxSpeed s).
Definition turnInfluence (s : ShipStats) : Q := JS.max (speedFactor s) (literal (1 # 10)).

(** Lines 321-334. *)
Definition turn (k : Keys) (s : ShipStats) : ShipStats :=
  if left k then
    set_rotationSpeed
      (add (rotationSpeed s)
           (mul (mul (rotationAcceleration s) (turnInfluence s)) (direction s))) s
  else if right k then
    set_rotationSpeed
      (sub (rotationSpeed s)
           (mul (mul (rotationAcceleration s) (turnInfluence s)) (direction s))) s
  else
    let s := if JS.gt (rotationSpeed s) 0
             then set_rotationSpeed (sub (rotationSpeed s) (rotationDeceleration s)) s
             else s in
    let s := if JS.lt (rotationSpeed s) 0
             then set_rotationSpeed (add (rotationSpeed s) (rotationDeceleration s)) s
             else s in
    let s := set_rotationSpeed (mul (rotationSpeed s) (rotationDamping s)) s in
    if JS.lt (JS.abs (rotationSpeed s)) (literal (1 # 10000))
    then set_rotationSpeed 0 s else s.

(** Lines 296-337 in order; line 337 is [clampRotation], which has no
    arithmetic that rounds. *)
Definition kinematics (k : Keys) (s : ShipStats) : ShipStats :=
  clampRotation (turn k (clampSpeed (accelerate k s))).

(** Lines 302-306 on the speed alone, with the deceleration [d]. *)
Definition drag (d v : Q) : Q :=
  let v := if JS.gt v 0 then sub v d else v in
  let v := if JS.lt v 0 then add v d else v in
  if JS.lt (JS.abs v) d then 0 else v.

(** Line 420 and line 427. *)
Definition currentSpeed (big : Q -> string) (s : ShipStats) : string :=
  JS.toFixed big 1 (mul (JS.abs (speed s)) 100).

Definition currentHeading (big : Q -> string) (g : Group) : string :=
  JS.toFixed big 0 (JS.rem (JS.abs (mul (rotation_y g) (div 180 JS.PI))) 360).

(** Lines 101-111. *)
Definition initialStats : ShipStats :=
  {| speed := 0; maxSpeed := 2; acceleration := literal (2 # 100);
     deceleration := literal (1 # 100);
     rotationSpeed := 0; maxRotationSpeed := literal (2 # 100);
     rotationAcceleration := literal (5 # 10000);
     rotationDeceleration := literal (5 # 10000);
     rotationDamping := literal (95 # 100) |}.

Section Simulation.

Context {host : Host}.

Definition applyMatrix4 (v : Vector3) (m : Pose) : Vector3 :=
  addV (applyYaw (heading m) v) (origin m).

Definition translateZ (distance : Q) (g : Group) : Group :=
  {| position :=
       addV (position g)
            (multiplyScalar (applyYaw (rotation_y g) (vec3 0 0 1)) distance);
     rotation_y := rotation_y g;
     matrixWorld := matrixWorld g |}.

(** Lines 351-411. *)
Definition cameraLogic (clock : Clock) (w : World) : World :=
  let was := orDefault (wasFollowMode (window w)) true in
  let trans := orDefault (isTransitioning (window w)) false in
  let t0 := orDefault (transitionStartTime (window w)) 0 in
  let p0 := orDefault (transitionStartPos (window w)) (vec3 0 0 0) in
  let p1 := orDefault (transitionTargetPos (window w)) (vec3 0 0 0) in
  if isFollowMode (document w) then
    let cameraOffset := applyMatrix4 (vec3 0 30 80) (matrixWorld (shipGroup w)) in
    let pos := lerp (camera_position (camera w)) cameraOffset (literal (1 # 20)) in
    set_window {| wasFollowMode := Some true; isTransitioning := Some false;
                  transitionStartTime := Some t0; transitionStartPos := Some p0;
                  transitionTargetPos := Some p1 |}
      (set_controls (set_enabled false (controls w))
         (set_camera {| camera_position := pos;
                        quaternion := lookAt pos (position (shipGroup w)) |} w))
  else
    let '(calls, trans, t0, p0, p1) :=
      if was then
        (1%nat, true, clock 0%nat, camera_position (camera w),
         applyMatrix4 (vec3 0 60 150) (matrixWorld (shipGroup w)))
      else (0%nat, trans, t0, p0, p1) in
    if trans then
      let duration := 1500 in
      let elapsed := sub (clock calls) t0 in
      let progress := JS.min (div elapsed duration) 1 in
      let ease := sub 1 (pow (sub 1 progress) 3) in
      let pos := lerpVectors p0 p1 ease in
      let finished := JS.ge progress 1 in
      set_window {| wasFollowMode := Some false;
                    isTransitioning := Some (if finished then false else true);
                    transitionStartTime := Some t0; transitionStartPos := Some p0;
                    transitionTargetPos := Some p1 |}
        (set_controls (if finished
                       then set_target (position (shipGroup w)) (controls w)
                       else controls w)
           (set_camera {| camera_position := pos;
                          quaternion := lookAt pos (position (shipGroup w)) |} w))
    else
      let '(o, tgt, (pos, q)) :=
        orbitUpdate (orbit (controls w)) (target (controls w))
                    (camera_position (camera w), quaternion (camera w)) in
      set_window {| wasFollowMode := Some false; isTransitioning := Some false;
                    transitionStartTime := Some t0; transitionStartPos := Some p0;
                    transitionTargetPos := Some p1 |}
        (set_controls {| enabled := true; target := tgt;
                         mouseButtons_LEFT := mouseButtons_LEFT (controls w);
                         orbit := o |}
           (set_camera {| camera_position := pos; quaternion := q |} w)).

(** Lines 416-431. *)
Definition updateReadouts (w : World) : World :=
  let d := document w in
  set_document
    {| cameraToggle := cameraToggle d;
       speedVal := writeText (speedVal d) (currentSpeed bigToString (shipStats w));
       headingVal := writeText (headingVal d) (currentHeading bigToString (shipGroup w)) |}
    w.

(** Lines 295-348. *)
Definition moveShip (sh : Ship) (w : World) : World :=
  let stats := kinematics (keys w) (shipStats w) in
  let g := shipGroup w in
  let g := {| position := position g;
              rotation_y := add (rotation_y g) (rotationSpeed stats);
              matrixWorld := matrixWorld g |} in
  let g := translateZ (- speed stats) g in
  let targetRoll := mul (rotationSpeed stats) 10 in
  let sh := {| rotation_z := MathUtils_lerp (rotation_z sh) targetRoll (literal (1 # 20)) |} in
  {| shipStats := stats; keys := keys w; ship := Some sh; shipGroup := g;
     camera := camera w; controls := controls w; window := window w;
     waterTime := waterTime w; document := document w |}.

(** Line 414. *)
Definition updateWater (w : World) : World :=
  set_waterTime (add (waterTime w) (div 1 60)) w.

Definition updatePhysics (clock : Clock) (w : World) : World :=
  match ship w with
  | None => w
  | Some sh => updateReadouts (updateWater (cameraLogic clock (moveShip sh w)))
  end.

Definition animate (clock : Clock) (w : World) : World :=
  updatePhysics clock (render w).

(** The handlers do no arithmetic: only the frame differs. *)
Definition handle (e : Event) (w : World) : World :=
  match e with
  | AnimationFrame clock => animate clock w
  | _ => handle e w
  end.

Fixpoint run (es : list Event) (w : World) : World :=
  match es with
  | [] => w
  | e :: es' => run es' (handle e w)
  end.

Fixpoint atEveryFrame (P : Clock -> World -> Prop) (es : list Event) (w : World) : Prop :=
  match es with
  | [] => True
  | e :: es' =>
    match e with
    | AnimationFrame c => P c w
    | _ => True
    end /\ atEveryFrame P es' (handle e w)
  end.

Definition initialWorld (d : Document) : World :=
  let w := initialWorld d in
  {| shipStats := initialStats; keys := keys w; ship := ship w;
     shipGroup := shipGroup w; camera := camera w; controls := controls w;
     window := window w; waterTime := waterTime w; document := document w |}.

End Simulation.

(** [src/unnamed/part_000], lines 171-246. *)
Module Part000.

Definition updatePhysics {host : Host} (w : World) : World :=
  match ship w with
  | None => w
  | Some sh =>
    let w := moveShip sh w in
    let cameraOffset := applyMatrix4 (vec3 0 30 80) (matrixWorld (shipGroup w)) in
    let pos := lerp (camera_position (camera w)) cameraOffset (literal (1 # 20)) in
    let w := set_camera {| camera_position := pos;
                           quaternion := lookAt pos (position (shipGroup w)) |} w in
    let w := updateWater w in
    let d := document w in
    set_document
      {| cameraToggle := cameraToggle d;
         speedVal := option_map (fun _ => currentSpeed bigToString (shipStats w))
                                (speedVal d);
         headingVal := option_map (fun _ => currentHeading bigToString (shipGroup w))
                                  (headingVal d) |}
      w
  end.

End Part000.

(** The loaded page of [rationalHost] with the constants as doubles, the
    flags [k] held, the toggle as given and the vessel making the speed
    [v]. *)
Definition afloat (k : Keys) (checked : bool) (v : Q) : World :=
  let w := set_keys k (onLoad (initialWorld (page checked))) in
  {| shipStats := set_speed v (shipStats w); keys := keys w; ship := ship w;
     shipGroup := shipGroup w; camera := camera w; controls := controls w;
     window := window w; waterTime := waterTime w; document := document w |}.

End Binary64.

(** Turns the outcome of a [Qcompare] into a fact of the order. *)
Ltac cmp_fact C :=
  match type of C with
  | Qcompare _ _ = Eq => apply Qeq_alt in C
  | Qcompare _ _ = Lt => apply Qlt_alt in C
  | Qcompare _ _ = Gt => apply Qgt_alt in C
  end.

(** ** Comparisons and clamps *)

Lemma lt_true (a b : Q) : JS.lt a b = true <-> a < b.
Proof.
  unfold JS.lt. rewrite negb_true_iff. split; intro H.
  - apply Qnot_le_lt. intro L. apply Qle_bool_iff in L. congruence.
  - destruct (Qle_bool b a) eqn:E; [|reflexivity].
    apply Qle_bool_iff in E. exfalso. apply (Qlt_not_le _ _ H E).
Qed.

Lemma lt_false (a b : Q) : JS.lt a b = false <-> b <= a.
Proof.
  unfold JS.lt. rewrite negb_false_iff. apply Qle_bool_iff.
Qed.

Lemma gt_true (a b : Q) : JS.gt a b = true <-> b < a.
Proof. apply (lt_true b a). Qed.

Lemma gt_false (a b : Q) : JS.gt a b = false <-> a <= b.
Proof. apply (lt_false b a). Qed.


Lemma ge_false (a b : Q) : JS.ge a b = false <-> a < b.
Proof.
  unfold JS.ge. split; intro H.
  - apply lt_true. unfold JS.lt. now rewrite H.
  - apply lt_true in H. unfold JS.lt in H. now apply negb_true_iff in H.
Qed.

Lemma abs_nonneg (x : Q) : 0 <= JS.abs x.
Proof. js_arith. Qed.

Lemma abs_zero (x : Q) : x == 0 -> JS.abs x == 0.
Proof. intro H. js_arith. Qed.

Lemma clamp_between (x lo hi : Q) :
  lo <= hi -> lo <= JS.max (JS.min x hi) lo /\ JS.max (JS.min x hi) lo <= hi.
Proof. intro H. js_arith. Qed.

(** ** What a frame leaves alone *)

Section Frame.

Context {host : Host}.

Lemma cameraLogic_frame (c : Clock) (w : World) :
  shipStats (cameraLogic c w) = shipStats w /\
  keys (cameraLogic c w) = keys w /\
  ship (cameraLogic c w) = ship w /\
  shipGroup (cameraLogic c w) = shipGroup w /\
  waterTime (cameraLogic c w) = waterTime w /\
  document (cameraLogic c w) = document w.
Proof.
  unfold cameraLogic.
  destruct (isFollowMode (document w)); [simpl; tauto|].
  destruct (orDefault (wasFollowMode (window w)) true);
    [|destruct (orDefault (isTransitioning (window w)) false)];
    cbv zeta; cbv iota; cbv beta;
    try (simpl; tauto).
  destruct (orbitUpdate _ _ _) as [[o tgt] [pos q]]. simpl. tauto.
Qed.

Lemma updatePhysics_shipStats (c : Clock) (w : World) (sh : Ship) :
  ship w = Some sh ->
  shipStats (updatePhysics c w) = kinematics (keys w) (shipStats w).
Proof.
  intro L. unfold updatePhysics. rewrite L.
  unfold updateReadouts, updateWater, set_document, set_waterTime. simpl.
  destruct (cameraLogic_frame c (moveShip sh w)) as (E & _). rewrite E.
  reflexivity.
Qed.

Lemma updatePhysics_unloaded (c : Clock) (w : World) :
  ship w = None -> updatePhysics c w = w.
Proof. intro L. unfold updatePhysics. now rewrite L. Qed.

End Frame.

(** ** The motion model keeps its constants and clamps its two speeds *)

Lemma accelerate_constants (k : Keys) (s : ShipStats) :
  constants (accelerate k s) = constants s /\
  rotationSpeed (accelerate k s) = rotationSpeed s.
Proof.
  unfold accelerate.
  destruct (forward k); [split; reflexivity|].
  destruct (backward k); [split; reflexivity|].
  cbv zeta.
  repeat match goal with
  | |- context [if ?b then _ else _] => destruct b
  end; split; reflexivity.
Qed.

Lemma turn_constants (k : Keys) (s : ShipStats) :
  constants (turn k s) = constants s /\ speed (turn k s) = speed s.
Proof.
  unfold turn.
  destruct (left k); [split; reflexivity|].
  destruct (right k); [split; reflexivity|].
  cbv zeta.
  repeat match goal with
  | |- context [if ?b then _ else _] => destruct b
  end; split; reflexivity.
Qed.

Lemma kinematics_constants (k : Keys) (s : ShipStats) :
  constants (kinematics k s) = constants s.
Proof.
  unfold kinematics.
  change (constants (turn k (clampSpeed (accelerate k s))) = constants s).
  destruct (turn_constants k (clampSpeed (accelerate k s))) as [-> _].
  change (constants (accelerate k s) = constants s).
  apply accelerate_constants.
Qed.

Lemma kinematics_speed (k : Keys) (s : ShipStats) :
  speed (kinematics k s) = speed (clampSpeed (accelerate k s)).
Proof.
  unfold kinematics.
  change (speed (turn k (clampSpeed (accelerate k s))) = speed (clampSpeed (accelerate k s))).
  apply turn_constants.
Qed.

Lemma constants_maxSpeed (s t : ShipStats) :
  constants s = constants t -> maxSpeed s = maxSpeed t.
Proof. unfold constants. congruence. Qed.

Lemma constants_maxRotationSpeed (s t : ShipStats) :
  constants s = constants t -> maxRotationSpeed s = maxRotationSpeed t.
Proof. unfold constants. congruence. Qed.

Lemma kinematics_speed_clamped (k : Keys) (s : ShipStats) :
  0 <= maxSpeed s ->
  - maxSpeed s / 2 <= speed (kinematics k s) /\ speed (kinematics k s) <= maxSpeed s.
Proof.
  intro M. rewrite kinematics_speed. unfold clampSpeed. simpl.
  destruct (accelerate_constants k s) as [C _].
  rewrite (constants_maxSpeed _ _ C).
  apply clamp_between. js_div. lra.
Qed.

Lemma kinematics_rotationSpeed_clamped (k : Keys) (s : ShipStats) :
  0 <= maxRotationSpeed s ->
  - maxRotationSpeed s <= rotationSpeed (kinematics k s) /\
  rotationSpeed (kinematics k s) <= maxRotationSpeed s.
Proof.
  intro M. unfold kinematics, clampRotation. simpl.
  destruct (turn_constants k (clampSpeed (accelerate k s))) as [C _].
  rewrite (constants_maxRotationSpeed _ _ C).
  change (maxRotationSpeed (clampSpeed (accelerate k s)))
    with (maxRotationSpeed (accelerate k s)).
  destruct (accelerate_constants k s) as [C' _].
  rewrite (constants_maxRotationSpeed _ _ C').
  apply clamp_between. lra.
Qed.

(** ** Runs of the page *)

Section Invariants.

Context {host : Host}.

Lemma render_same (w : World) :
  shipStats (render w) = shipStats w /\ keys (render w) = keys w /\
  ship (render w) = ship w /\ window (render w) = window w /\
  document (render w) = document w /\ camera (render w) = camera w /\
  controls (render w) = controls w.
Proof. unfold render. simpl. tauto. Qed.

Lemma keydown_same (code : string) (w : World) :
  shipStats (keydown code w) = shipStats w /\ ship (keydown code w) = ship w /\
  window (keydown code w) = window w.
Proof.
  unfold keydown.
  repeat match goal with
  | |- context [if ?b then _ else _] => destruct b
  end; try (simpl; tauto).
  destruct (cameraToggle (document w)) as [[|]|]; simpl; tauto.
Qed.

Lemma keyup_same (code : string) (w : World) :
  shipStats (keyup code w) = shipStats w /\ ship (keyup code w) = ship w /\
  window (keyup code w) = window w /\ document (keyup code w) = document w.
Proof.
  unfold keyup.
  repeat match goal with
  | |- context [if ?b then _ else _] => destruct b
  end; simpl; tauto.
Qed.

(** Only an animation frame touches [shipStats], and it does so through
    [kinematics]. *)
Lemma handle_shipStats (e : Event) (w : World) :
  shipStats (handle e w) = shipStats w \/
  exists k, shipStats (handle e w) = kinematics k (shipStats w).
Proof.
  destruct e; simpl; try (left; reflexivity).
  - left. apply keydown_same.
  - left. apply keyup_same.
  - unfold animate.
    destruct (render_same w) as (S & K & L & _).
    destruct (ship w) as [sh|] eqn:E.
    + right. exists (keys w).
      rewrite (updatePhysics_shipStats clock (render w) sh) by congruence.
      now rewrite S, K.
    + left. rewrite updatePhysics_unloaded by congruence. exact S.
Qed.

Lemma wellTuned_initial : wellTuned initialStats.
Proof.
  unfold wellTuned. simpl. js_div. repeat split; try reflexivity; lra.
Qed.

Lemma wellTuned_kinematics (k : Keys) (s : ShipStats) :
  wellTuned s -> wellTuned (kinematics k s).
Proof.
  intros (C & _ & _).
  assert (C' := kinematics_constants k s).
  assert (M : maxSpeed s = 2) by (rewrite (constants_maxSpeed _ _ C); reflexivity).
  assert (R : maxRotationSpeed s = 2 # 100)
    by (rewrite (constants_maxRotationSpeed _ _ C); reflexivity).
  split; [congruence|].
  rewrite (constants_maxSpeed _ _ C'), (constants_maxRotationSpeed _ _ C').
  split.
  - apply kinematics_speed_clamped. rewrite M. lra.
  - apply kinematics_rotationSpeed_clamped. rewrite R. lra.
Qed.

Lemma wellTuned_run (es : list Event) (w : World) :
  wellTuned (shipStats w) -> wellTuned (shipStats (run es w)).
Proof.
  revert w. induction es as [|e es IH]; intros w W; simpl; [exact W|].
  apply IH.
  destruct (handle_shipStats e w) as [-> | [k ->]];
    [exact W | now apply wellTuned_kinematics].
Qed.

(** C3: whatever the keys, the toggle and the clock do, and however many
    frames run, the speed of the page started from line 102 stays between
    minus half of [maxSpeed] and [maxSpeed]. *)
Theorem speed_within_clamp (d : Document) (es : list Event) :
  let s := shipStats (run es (initialWorld d)) in
  - maxSpeed s / 2 <= speed s /\ speed s <= maxSpeed s.
Proof.
  intro s. apply (wellTuned_run es (initialWorld d) wellTuned_initial).
Qed.

(** C4: in every run from the initial page the rotation speed (the yaw
    rate) stays between minus [maxRotationSpeed] and [maxRotationSpeed]. *)
Theorem yawRate_within_clamp (d : Document) (es : list Event) :
  let s := shipStats (run es (initialWorld d)) in
  - maxRotationSpeed s <= rotationSpeed s /\ rotationSpeed s <= maxRotationSpeed s.
Proof.
  intro s. apply (wellTuned_run es (initialWorld d) wellTuned_initial).
Qed.

(** C9: until the model has loaded, [updatePhysics] returns the world it
    was given: speeds, position, yaw, roll, camera, transition variables
    and readouts are all as they were. *)
Theorem unloaded_update_changes_nothing (c : Clock) (w : World) :
  ship w = None -> updatePhysics c w = w.
Proof. intro L. unfold updatePhysics. rewrite L. reflexivity. Qed.

End Invariants.

Lemma unloaded_update_changes_nothing_witness :
  ship (initialWorld (page true)) = None /\
  updatePhysics (at_time 0) (initialWorld (page true)) = initialWorld (page true).
Proof.
  split; [reflexivity|].
  apply (unloaded_update_changes_nothing (at_time 0) (initialWorld (page true))).
  reflexivity.
Defined.

(** ** Throttle and rudder, branch by branch *)

(** The stage between the two halves of [kinematics]: the speed is final,
    the rotation speed still the old one. *)
Lemma after_throttle (k : Keys) (s : ShipStats) :
  let t := clampSpeed (accelerate k s) in
  rotationSpeed t = rotationSpeed s /\ constants t = constants s /\
  speed t = speed (kinematics k s) /\ maxSpeed t = maxSpeed (kinematics k s).
Proof.
  intro t. destruct (accelerate_constants k s) as [C R].
  assert (Ct : constants t = constants s) by exact C.
  repeat split.
  - exact R.
  - exact Ct.
  - symmetry. apply kinematics_speed.
  - rewrite (constants_maxSpeed _ _ (kinematics_constants k s)).
    apply (constants_maxSpeed _ _ Ct).
Qed.

Lemma turnInfluence_final (k : Keys) (s : ShipStats) :
  turnInfluence (clampSpeed (accelerate k s)) = turnInfluence (kinematics k s) /\
  direction (clampSpeed (accelerate k s)) = direction (kinematics k s).
Proof.
  destruct (after_throttle k s) as (_ & _ & S & M).
  unfold turnInfluence, speedFactor, direction. rewrite S, M. split; reflexivity.
Qed.

Lemma kinematics_forward (k : Keys) (s : ShipStats) :
  forward k = true ->
  speed (kinematics k s) =
  JS.max (JS.min (speed s + acceleration s) (maxSpeed s)) (- maxSpeed s / 2).
Proof.
  intro F. rewrite kinematics_speed. unfold clampSpeed, accelerate.
  rewrite F. reflexivity.
Qed.


Lemma kinematics_left (k : Keys) (s : ShipStats) :
  left k = true ->
  rotationSpeed (kinematics k s) =
  JS.max (JS.min (rotationSpeed s + rotationAcceleration s
                                    * turnInfluence (kinematics k s)
                                    * direction (kinematics k s))
                 (maxRotationSpeed s))
         (- maxRotationSpeed s).
Proof.
  intro L.
  destruct (after_throttle k s) as (R & C & _).
  destruct (turnInfluence_final k s) as [<- <-].
  unfold kinematics, clampRotation, turn. rewrite L. simpl.
  unfold constants in C. simpl in C. injection C as _ _ _ M A _ _.
  rewrite A, M. simpl in R. rewrite R. reflexivity.
Qed.

Lemma kinematics_right (k : Keys) (s : ShipStats) :
  left k = false -> right k = true ->
  rotationSpeed (kinematics k s) =
  JS.max (JS.min (rotationSpeed s - rotationAcceleration s
                                    * turnInfluence (kinematics k s)
                                    * direction (kinematics k s))
                 (maxRotationSpeed s))
         (- maxRotationSpeed s).
Proof.
  intros L R'.
  destruct (after_throttle k s) as (R & C & _).
  destruct (turnInfluence_final k s) as [<- <-].
  unfold kinematics, clampRotation, turn. rewrite L, R'. simpl.
  unfold constants in C. simpl in C. injection C as _ _ _ M A _ _.
  rewrite A, M. simpl in R. rewrite R. reflexivity.
Qed.

Lemma direction_cases (s : ShipStats) :
  (0 <= speed s -> direction s = 1) /\ (speed s < 0 -> direction s = - (1)).
Proof.
  unfold direction, JS.ge. split; intro H.
  - apply Qle_bool_iff in H. now rewrite H.
  - apply (ge_false (speed s) 0) in H. unfold JS.ge in H. now rewrite H.
Qed.

Lemma turnInfluence_floor (s : ShipStats) : 1 # 10 <= turnInfluence s.
Proof. unfold turnInfluence. js_arith. Qed.

Lemma kinematics_ignores_backward (k : Keys) (s : ShipStats) :
  forward k = true -> kinematics (set_key Backward false k) s = kinematics k s.
Proof.
  intro F. unfold kinematics, accelerate, turn. simpl. rewrite F. reflexivity.
Qed.

Lemma kinematics_ignores_right (k : Keys) (s : ShipStats) :
  left k = true -> kinematics (set_key Right false k) s = kinematics k s.
Proof.
  intro L. unfold kinematics, accelerate, turn. simpl. rewrite L. reflexivity.
Qed.

Lemma clamp_nonneg (x m : Q) : 0 <= x -> 0 <= JS.max (JS.min x m) (- m / 2).
Proof. intro H. js_arith. Qed.

(** With no throttle a vessel at rest stays at rest before the clamp. *)
Lemma accelerate_at_rest (k : Keys) (s : ShipStats) :
  forward k = false -> backward k = false -> speed s == 0 ->
  speed (accelerate k s) == 0.
Proof.
  intros F B Z. unfold accelerate. rewrite F, B. cbv zeta.
  destruct (JS.gt (speed s) 0) eqn:G.
  - apply gt_true in G. lra.
  - destruct (JS.lt (speed s) 0) eqn:L.
    + apply lt_true in L. lra.
    + destruct (JS.lt (JS.abs (speed s)) (deceleration s)); simpl; lra.
Qed.

Lemma clamp_rises (r inc m : Q) :
  0 < inc -> r < m -> r < JS.max (JS.min (r + inc) m) (- m).
Proof. intros I R. js_arith. Qed.

(** ** The speed readout *)

Lemma abs_value (x y : Q) : x == y -> JS.abs x == JS.abs y.
Proof. intro H. js_arith. Qed.

Lemma abs_opp (x : Q) : JS.abs (- x) == JS.abs x.
Proof. js_arith. Qed.

Lemma fixedDigits_value (big : Q -> string) (fd : nat) (x y : Q) :
  (forall a b : Q, a == b -> big a = big b) ->
  x == y -> JS.fixedDigits big fd x = JS.fixedDigits big fd y.
Proof.
  intros B H. unfold JS.fixedDigits.
  assert (E : JS.ge x (10 ^ 21) = JS.ge y (10 ^ 21))
    by (unfold JS.ge; now rewrite H).
  rewrite E. destruct (JS.ge y (10 ^ 21)); [now apply B|].
  assert (F : Qfloor (x * 10 ^ Z.of_nat fd + (1 # 2))
              = Qfloor (y * 10 ^ Z.of_nat fd + (1 # 2))) by now rewrite H.
  cbv zeta. now rewrite F.
Qed.

Lemma toFixed_unsigned (big : Q -> string) (fd : nat) (x : Q) :
  0 <= x -> JS.toFixed big fd x = JS.fixedDigits big fd x.
Proof.
  intro H. unfold JS.toFixed.
  destruct (JS.lt x 0) eqn:L; [|reflexivity].
  apply lt_true in L. lra.
Qed.



Lemma writeText_some (old text : string) : writeText (Some old) text = Some text.
Proof.
  unfold writeText. destruct (String.eqb old text) eqn:E; [|reflexivity].
  apply String.eqb_eq in E. now subst.
Qed.

(** ** Claims about one frame of the motion model *)

Section Steering.

Context {host : Host}.

(** C6: with forward and backward both held the frame adds [acceleration]
    and clamps, exactly as with forward alone; with left and right both
    held it takes the left branch, exactly as with left alone. *)
Theorem opposite_flags_first_wins (c : Clock) (w : World) (sh : Ship) :
  ship w = Some sh ->
  let s := shipStats w in
  let s' := shipStats (updatePhysics c w) in
  (forward (keys w) = true -> backward (keys w) = true ->
   speed s' = JS.max (JS.min (speed s + acceleration s) (maxSpeed s)) (- maxSpeed s / 2) /\
   s' = shipStats (updatePhysics c (set_keys (set_key Backward false (keys w)) w))) /\
  (left (keys w) = true -> right (keys w) = true ->
   rotationSpeed s' =
     JS.max (JS.min (rotationSpeed s + rotationAcceleration s * turnInfluence s'
                                       * direction s')
                    (maxRotationSpeed s))
            (- maxRotationSpeed s) /\
   s' = shipStats (updatePhysics c (set_keys (set_key Right false (keys w)) w))).
Proof.
  intros L s s'. subst s s'.
  rewrite (updatePhysics_shipStats c w sh L).
  split.
  - intros F _. split; [now apply kinematics_forward|].
    rewrite (updatePhysics_shipStats c (set_keys _ w) sh) by exact L.
    simpl. symmetry. now apply kinematics_ignores_backward.
  - intros T _. split; [now apply kinematics_left|].
    rewrite (updatePhysics_shipStats c (set_keys _ w) sh) by exact L.
    simpl. symmetry. now apply kinematics_ignores_right.
Qed.

(** C2, as the code has it: the multiplier applied to the yaw-rate
    increment is [+1] when the frame's speed is zero or positive and [-1]
    when it is negative; left adds and right subtracts
    [rotationAcceleration * turnInfluence] times that multiplier. *)
Theorem turn_direction_by_speed (c : Clock) (w : World) (sh : Ship) :
  ship w = Some sh ->
  let s := shipStats w in
  let s' := shipStats (updatePhysics c w) in
  (0 <= speed s' -> direction s' = 1) /\
  (speed s' < 0 -> direction s' = - (1)) /\
  (left (keys w) = true ->
   rotationSpeed s' =
     JS.max (JS.min (rotationSpeed s + rotationAcceleration s * turnInfluence s'
                                       * direction s')
                    (maxRotationSpeed s))
            (- maxRotationSpeed s)) /\
  (left (keys w) = false -> right (keys w) = true ->
   rotationSpeed s' =
     JS.max (JS.min (rotationSpeed s - rotationAcceleration s * turnInfluence s'
                                       * direction s')
                    (maxRotationSpeed s))
            (- maxRotationSpeed s)).
Proof.
  intros L s s'. subst s s'.
  rewrite (updatePhysics_shipStats c w sh L).
  repeat split.
  - apply direction_cases.
  - apply direction_cases.
  - apply kinematics_left.
  - apply kinematics_right.
Qed.

(** C5, as the code has it: at rest, with the left flag held and the
    throttle not in reverse (forward held, or backward not held), a frame
    strictly raises a yaw rate that is below [maxRotationSpeed]; the turn
    influence is at least 0.1. *)
Theorem rudder_bites_at_rest (c : Clock) (w : World) (sh : Ship) :
  ship w = Some sh ->
  let s := shipStats w in
  let s' := shipStats (updatePhysics c w) in
  speed s == 0 ->
  left (keys w) = true ->
  forward (keys w) = true \/ backward (keys w) = false ->
  0 <= acceleration s ->
  0 < rotationAcceleration s ->
  rotationSpeed s < maxRotationSpeed s ->
  rotationSpeed s < rotationSpeed s' /\ 1 # 10 <= turnInfluence s'.
Proof.
  intros L s s'. subst s s'.
  rewrite (updatePhysics_shipStats c w sh L).
  intros Z T Th A RA RM.
  set (k := keys w) in *. set (s := shipStats w) in *.
  assert (P : 0 <= speed (kinematics k s)).
  { destruct (forward k) eqn:F.
    - rewrite (kinematics_forward k s F). apply clamp_nonneg. lra.
    - destruct Th as [Th|B]; [discriminate|].
      rewrite kinematics_speed. unfold clampSpeed. simpl.
      destruct (accelerate_constants k s) as [C _].
      apply clamp_nonneg.
      assert (R := accelerate_at_rest k s F B Z). lra. }
  split; [|apply turnInfluence_floor].
  rewrite (kinematics_left k s T).
  destruct (direction_cases (kinematics k s)) as [D _]. rewrite (D P).
  assert (I : 0 < rotationAcceleration s * turnInfluence (kinematics k s) * 1).
  { assert (F := turnInfluence_floor (kinematics k s)).
    rewrite Qmult_1_r. apply Qmult_lt_0_compat; lra. }
  apply clamp_rises; assumption.
Qed.



End Steering.

(** ** The claims about one frame, run on the loaded page *)

Lemma opposite_flags_first_wins_witness :
  let w := afloat (flags true true true true) true in
  let s := shipStats w in
  let s' := shipStats (updatePhysics (at_time 0) w) in
  (speed s' = JS.max (JS.min (speed s + acceleration s) (maxSpeed s)) (- maxSpeed s / 2) /\
   s' = shipStats (updatePhysics (at_time 0) (set_keys (set_key Backward false (keys w)) w))) /\
  (rotationSpeed s' =
     JS.max (JS.min (rotationSpeed s + rotationAcceleration s * turnInfluence s'
                                       * direction s')
                    (maxRotationSpeed s))
            (- maxRotationSpeed s) /\
   s' = shipStats (updatePhysics (at_time 0) (set_keys (set_key Right false (keys w)) w))).
Proof.
  intros w s s'.
  destruct (opposite_flags_first_wins (at_time 0) w {| rotation_z := 0 |} eq_refl)
    as [H1 H2].
  split; [apply H1; reflexivity | apply H2; reflexivity].
Defined.

Lemma turn_direction_by_speed_witness :
  let w := afloat (flags false true false true) true in
  let s := shipStats w in
  let s' := shipStats (updatePhysics (at_time 0) w) in
  (0 <= speed s' -> direction s' = 1) /\
  (speed s' < 0 -> direction s' = - (1)) /\
  (left (keys w) = true ->
   rotationSpeed s' =
     JS.max (JS.min (rotationSpeed s + rotationAcceleration s * turnInfluence s'
                                       * direction s')
                    (maxRotationSpeed s))
            (- maxRotationSpeed s)) /\
  (left (keys w) = false -> right (keys w) = true ->
   rotationSpeed s' =
     JS.max (JS.min (rotationSpeed s - rotationAcceleration s * turnInfluence s'
                                       * direction s')
                    (maxRotationSpeed s))
            (- maxRotationSpeed s)).
Proof.
  intros w s s'.
  exact (turn_direction_by_speed (at_time 0) w {| rotation_z := 0 |} eq_refl).
Defined.

(** C2 as worded fails at rest: the vessel does not move, the specification's
    sign is [0], yet the multiplier is [1] and the left flag turns the vessel
    by [0.0005 * 0.1], where a multiplier of [0] would leave the yaw rate at
    [0]. *)
Lemma direction_at_rest_is_not_sign :
  let w := afloat (flags false false true false) true in
  let s := shipStats w in
  let s' := shipStats (updatePhysics (at_time 0) w) in
  speed s' == 0 /\ sign (speed s') == 0 /\ direction s' == 1 /\
  rotationSpeed s' == 1 # 20000 /\
  ~ direction s' == sign (speed s') /\
  ~ rotationSpeed s' ==
    JS.max (JS.min (rotationSpeed s + rotationAcceleration s * turnInfluence s'
                                      * sign (speed s'))
                   (maxRotationSpeed s))
           (- maxRotationSpeed s).
Proof.
  intros w s s'.
  repeat split; try (vm_compute; reflexivity);
    intro H; vm_compute in H; discriminate H.
Qed.

(** C5 as worded fails when the backward flag is held too: the frame first
    takes the vessel into reverse, the multiplier is [-1], and the left flag
    lowers the yaw rate from [0] to [-0.00005]. *)
Lemma left_in_reverse_lowers_yawRate :
  let w := afloat (flags false true true false) true in
  let s := shipStats w in
  let s' := shipStats (updatePhysics (at_time 0) w) in
  ship w <> None /\ speed s == 0 /\ left (keys w) = true /\
  rotationSpeed s < maxRotationSpeed s /\
  rotationSpeed s' == - (1 # 20000) /\
  ~ rotationSpeed s < rotationSpeed s'.
Proof.
  intros w s s'.
  repeat split; try (vm_compute; reflexivity); try discriminate;
    intro H; vm_compute in H; discriminate H.
Qed.

Lemma rudder_bites_at_rest_witness :
  let w := afloat (flags false false true false) true in
  let s := shipStats w in
  let s' := shipStats (updatePhysics (at_time 0) w) in
  rotationSpeed s < rotationSpeed s' /\ 1 # 10 <= turnInfluence s'.
Proof.
  intros w s s'.
  apply (rudder_bites_at_rest (at_time 0) w {| rotation_z := 0 |} eq_refl).
  - vm_compute; reflexivity.
  - reflexivity.
  - right; reflexivity.
  - vm_compute; discriminate.
  - vm_compute; reflexivity.
  - vm_compute; reflexivity.
Defined.


(** One frame in reverse and one frame ahead from rest both show ["2.0"]. *)
Example readout_astern_and_ahead :
  speedVal (document (updatePhysics (at_time 0) (afloat (flags false true false false) true)))
    = Some "2.0"%string /\
  speedVal (document (updatePhysics (at_time 0) (afloat (flags true false false false) true)))
    = Some "2.0"%string.
Proof. split; vm_compute; reflexivity. Qed.

(** ** The camera controller *)

Section CameraMode.

Context {host : Host}.

(** What the camera logic of a frame sees and what the frame keeps of it. *)
Lemma updatePhysics_camera (c : Clock) (w : World) (sh : Ship) :
  ship w = Some sh ->
  let v := cameraLogic c (moveShip sh w) in
  window (updatePhysics c w) = window v /\
  camera (updatePhysics c w) = camera v /\
  controls (updatePhysics c w) = controls v /\
  shipGroup (updatePhysics c w) = shipGroup (moveShip sh w) /\
  cameraToggle (document (updatePhysics c w)) = cameraToggle (document w) /\
  exists sh', ship (updatePhysics c w) = Some sh'.
Proof.
  intros L v. unfold updatePhysics. rewrite L. fold v.
  destruct (cameraLogic_frame c (moveShip sh w)) as (_ & _ & S & G & _ & D).
  fold v in S, G, D.
  unfold updateReadouts, updateWater, set_document, set_waterTime. simpl.
  rewrite D, S, G. simpl. repeat split; try reflexivity. eexists; reflexivity.
Qed.

Lemma handle_loaded (e : Event) (w : World) (sh : Ship) :
  ship w = Some sh -> exists sh', ship (handle e w) = Some sh'.
Proof.
  intro L. destruct e; simpl; try (exists sh; exact L).
  - exists sh. destruct (keydown_same code w) as (_ & -> & _). exact L.
  - exists sh. destruct (keyup_same code w) as (_ & -> & _). exact L.
  - eexists; reflexivity.
  - unfold animate.
    assert (R : ship (render w) = Some sh) by exact L.
    apply (updatePhysics_camera clock (render w) sh R).
Qed.

Lemma run_loaded (es : list Event) (w : World) (sh : Ship) :
  ship w = Some sh -> exists sh', ship (run es w) = Some sh'.
Proof.
  revert w sh. induction es as [|e es IH]; intros w sh L; simpl.
  - exists sh; exact L.
  - destruct (handle_loaded e w sh L) as [sh' L']. apply (IH _ sh' L').
Qed.

(** Lines 361-367. *)
Lemma cameraLogic_follow (c : Clock) (w : World) :
  isFollowMode (document w) = true ->
  modeState (cameraLogic c w) = (Some true, Some false, false).
Proof. intro F. unfold cameraLogic. rewrite F. reflexivity. Qed.

Lemma follow_frame_mode (c : Clock) (w : World) (sh : Ship) :
  ship w = Some sh -> isFollowMode (document w) = true ->
  modeState (animate c w) = (Some true, Some false, false).
Proof.
  intros L F. unfold animate.
  assert (R : ship (render w) = Some sh) by exact L.
  destruct (updatePhysics_camera c (render w) sh R) as (W & _ & C & _).
  unfold modeState. rewrite W, C.
  apply (cameraLogic_follow c (moveShip sh (render w))). exact F.
Qed.

(** C8: whatever has happened on the page since it was in follow mode
    (the toggle switched off, frames of an unfinished transition, the
    toggle switched back on), the next frame with the toggle checked
    leaves the latch set, the transition flag cleared and the manual
    controls disabled, which is the mode state of a frame run without
    any of it. *)
Theorem refollow_resets_mode (w : World) (sh : Ship) (es : list Event) (c c' : Clock) :
  ship w = Some sh ->
  isFollowMode (document w) = true ->
  isFollowMode (document (run es w)) = true ->
  modeState (animate c (run es w)) = (Some true, Some false, false) /\
  modeState (animate c (run es w)) = modeState (animate c' w).
Proof.
  intros L F F'.
  destruct (run_loaded es w sh L) as [sh' L'].
  rewrite (follow_frame_mode c (run es w) sh' L' F').
  rewrite (follow_frame_mode c' w sh L F).
  split; reflexivity.
Qed.

End CameraMode.

(** Off with [C], two frames into the transition, on again with [C]. *)
Lemma refollow_resets_mode_witness :
  let w := afloat (flags true false false false) true in
  let es := [Keydown "KeyC"; AnimationFrame (at_time 0); AnimationFrame (at_time 700);
             Keydown "KeyC"] in
  isTransitioning (window (run [Keydown "KeyC"; AnimationFrame (at_time 0);
                                AnimationFrame (at_time 700)] w)) = Some true /\
  modeState (animate (at_time 716) (run es w)) = (Some true, Some false, false) /\
  modeState (animate (at_time 716) (run es w)) = modeState (animate (at_time 0) w).
Proof.
  intros w es. split; [vm_compute; reflexivity|].
  apply (refollow_resets_mode w {| rotation_z := 0 |} es (at_time 716) (at_time 0)).
  - reflexivity.
  - reflexivity.
  - vm_compute; reflexivity.
Defined.

(** ** The transition to free roam *)





Section Transition.

Context {host : Host}.








End Transition.


(** The text of the model's [toFixed] on a few numbers. *)
Example toFixed_texts :
  JS.toFixed bigToString 1 (5 # 100) = "0.1"%string /\
  JS.toFixed bigToString 1 (123456 # 1000) = "123.5"%string /\
  JS.toFixed bigToString 0 (5 # 10) = "1"%string /\
  JS.toFixed bigToString 2 (- (1 # 1000)) = "-0.00"%string /\
  JS.toFixed bigToString 1 0 = "0.0"%string.
Proof. repeat split; vm_compute; reflexivity. Qed.

(** ** Coasting *)





Section Coasting.

Context {host : Host}.







End Coasting.

Section ComingToRest.

Context {host : Host}.


End ComingToRest.


(** The two examples of the specification: from rest, a hundred frames with
    the forward flag held reach [maxSpeed]; from speed [1], a hundred
    coasting frames reach rest, and ninety-nine do not. *)
Example hundred_frames_ahead :
  speed (shipStats (run (repeat (AnimationFrame (at_time 0)) 100)
                        (afloat (flags true false false false) true))) == 2.
Proof. vm_compute. reflexivity. Qed.

Example hundred_frames_coasting :
  speed (shipStats (run (repeat (AnimationFrame (at_time 0)) 100) (underway 1 true))) == 0 /\
  speed (shipStats (run (repeat (AnimationFrame (at_time 0)) 99) (underway 1 true))) == 1 # 100.
Proof. split; vm_compute; reflexivity. Qed.

(** ** What the input handlers leave alone *)

Section Inputs.

Context {host : Host}.

Lemma keydown_keeps (code : string) (w : World) :
  shipGroup (keydown code w) = shipGroup w /\
  camera (keydown code w) = camera w /\
  waterTime (keydown code w) = waterTime w /\
  speedVal (document (keydown code w)) = speedVal (document w) /\
  headingVal (document (keydown code w)) = headingVal (document w) /\
  enabled (controls (keydown code w)) = enabled (controls w) /\
  target (controls (keydown code w)) = target (controls w).
Proof.
  unfold keydown.
  repeat match goal with
  | |- context [if ?b then _ else _] => destruct b
  end; try (simpl; tauto).
  destruct (cameraToggle (document w)) as [[|]|]; simpl; tauto.
Qed.

Lemma keyup_keeps (code : string) (w : World) :
  shipGroup (keyup code w) = shipGroup w /\
  camera (keyup code w) = camera w /\
  waterTime (keyup code w) = waterTime w /\
  enabled (controls (keyup code w)) = enabled (controls w) /\
  target (controls (keyup code w)) = target (controls w).
Proof.
  unfold keyup.
  repeat match goal with
  | |- context [if ?b then _ else _] => destruct b
  end; simpl; tauto.
Qed.

Lemma input_keeps_scene (e : Event) (w : World) :
  isInput e = true -> scene (handle e w) = scene w.
Proof.
  intro I. unfold scene.
  destruct e; try discriminate I; simpl handle; try reflexivity.
  - destruct (keydown_same code w) as (-> & -> & ->).
    destruct (keydown_keeps code w) as (-> & -> & -> & -> & -> & -> & ->).
    reflexivity.
  - destruct (keyup_same code w) as (-> & -> & -> & ->).
    destruct (keyup_keeps code w) as (-> & -> & -> & -> & ->).
    reflexivity.
Qed.

(** X1: a key, a pointer or a toggle event writes flags, the toggle or the
    mouse-button mapping and nothing else: the motion state, the loaded
    model, the vessel's pose, the camera, the transition variables, the
    water clock, the two readouts, and the orbit controls' target and
    enabled flag are as they were. *)
Theorem inputs_leave_the_scene_alone (e : Event) (w : World) :
  isInput e = true ->
  shipStats (handle e w) = shipStats w /\
  ship (handle e w) = ship w /\
  shipGroup (handle e w) = shipGroup w /\
  camera (handle e w) = camera w /\
  window (handle e w) = window w /\
  waterTime (handle e w) = waterTime w /\
  speedVal (document (handle e w)) = speedVal (document w) /\
  headingVal (document (handle e w)) = headingVal (document w) /\
  enabled (controls (handle e w)) = enabled (controls w) /\
  target (controls (handle e w)) = target (controls w).
Proof.
  intro I. assert (H := input_keeps_scene e w I). unfold scene in H.
  injection H as -> -> -> -> -> -> -> -> -> ->. repeat split; reflexivity.
Qed.

Lemma animate_unloaded (c : Clock) (w : World) :
  ship w = None -> animate c w = render w.
Proof. intro L. unfold animate. apply updatePhysics_unloaded. exact L. Qed.

(** X2: while the model has not arrived, nothing on the page moves: after
    any run without the load event the motion state, the vessel's pose and
    world matrix, the camera, the transition variables, the water clock and
    the readouts are those of the initial page, frames or not. *)
Theorem no_model_no_motion (d : Document) (es : list Event) :
  forallb (fun e => negb (isLoad e)) es = true ->
  let w := run es (initialWorld d) in
  ship w = None /\ shipStats w = initialStats /\
  shipGroup w = shipGroup (initialWorld d) /\ camera w = camera (initialWorld d) /\
  window w = window (initialWorld d) /\ waterTime w = 0 /\
  speedVal (document w) = speedVal d /\ headingVal (document w) = headingVal d /\
  enabled (controls w) = true /\ target (controls w) = vec3 0 10 0.
Proof.
  intros N w. subst w.
  assert (G : forall v : World,
             scene v = scene (initialWorld d) ->
             scene (run es v) = scene (initialWorld d)).
  { induction es as [|e es IH]; intros v V; simpl; [exact V|].
    simpl in N. apply andb_true_iff in N. destruct N as [N1 N2].
    apply (IH N2).
    destruct (isInput e) eqn:I.
    - rewrite (input_keeps_scene e v I). exact V.
    - destruct e; try discriminate I; try discriminate N1.
      simpl handle.
      assert (L : ship v = None) by (unfold scene in V; simpl in V; congruence).
      rewrite (animate_unloaded clock v L).
      unfold scene in *. simpl in *.
      injection V as -> -> -> -> -> -> -> -> -> ->. reflexivity. }
  specialize (G (initialWorld d) eq_refl). unfold scene in G. simpl in G.
  injection G as -> -> -> -> -> -> -> -> -> ->. repeat split; reflexivity.
Qed.

End Inputs.

Lemma inputs_leave_the_scene_alone_witness :
  let w := afloat (flags true false false false) true in
  let e := Keydown "KeyC" in
  shipStats (handle e w) = shipStats w /\
  ship (handle e w) = ship w /\
  shipGroup (handle e w) = shipGroup w /\
  camera (handle e w) = camera w /\
  window (handle e w) = window w /\
  waterTime (handle e w) = waterTime w /\
  speedVal (document (handle e w)) = speedVal (document w) /\
  headingVal (document (handle e w)) = headingVal (document w) /\
  enabled (controls (handle e w)) = enabled (controls w) /\
  target (controls (handle e w)) = target (controls w).
Proof.
  intros w e. apply (inputs_leave_the_scene_alone e w). reflexivity.
Defined.

Lemma no_model_no_motion_witness :
  let d := page false in
  let es := [Keydown "KeyW"; AnimationFrame (at_time 0); Keydown "Space";
             AnimationFrame (at_time 16); PointerDown Left; ToggleClick;
             AnimationFrame (at_time 33)] in
  let w := run es (initialWorld d) in
  ship w = None /\ shipStats w = initialStats /\
  shipGroup w = shipGroup (initialWorld d) /\ camera w = camera (initialWorld d) /\
  window w = window (initialWorld d) /\ waterTime w = 0 /\
  speedVal (document w) = speedVal d /\ headingVal (document w) = headingVal d /\
  enabled (controls w) = true /\ target (controls w) = vec3 0 10 0.
Proof.
  intros d es w. apply (no_model_no_motion d es). reflexivity.
Defined.

(** ** Runs seen from [shipStats] *)

Section StatsOfRuns.

Context {host : Host}.


End StatsOfRuns.






Section Throttle.

Context {host : Host}.



End Throttle.



(** ** The yaw rate without rudder *)

Lemma turn_drift (k : Keys) (s : ShipStats) :
  left k = false -> right k = false ->
  rotationSpeed (turn k s)
  = drift (rotationSpeed s) (rotationDeceleration s) (rotationDamping s).
Proof.
  intros L R. unfold turn, drift. rewrite L, R. cbv zeta.
  destruct (JS.gt (rotationSpeed s) 0);
    cbn [rotationSpeed set_rotationSpeed rotationDeceleration rotationDamping].
  - destruct (JS.lt (rotationSpeed s - rotationDeceleration s) 0);
      cbn [rotationSpeed set_rotationSpeed rotationDeceleration rotationDamping];
      match goal with |- context [JS.lt (JS.abs ?x) ?y] => destruct (JS.lt (JS.abs x) y) end;
      reflexivity.
  - destruct (JS.lt (rotationSpeed s) 0);
      cbn [rotationSpeed set_rotationSpeed rotationDeceleration rotationDamping];
      match goal with |- context [JS.lt (JS.abs ?x) ?y] => destruct (JS.lt (JS.abs x) y) end;
      reflexivity.
Qed.

Lemma kinematics_drift (k : Keys) (s : ShipStats) :
  left k = false -> right k = false ->
  rotationSpeed (kinematics k s)
  = JS.max (JS.min (drift (rotationSpeed s) (rotationDeceleration s) (rotationDamping s))
                   (maxRotationSpeed s))
           (- maxRotationSpeed s).
Proof.
  intros L R.
  destruct (after_throttle k s) as (Rt & C & _). cbv zeta in Rt, C.
  unfold kinematics, clampRotation.
  remember (clampSpeed (accelerate k s)) as t eqn:Et.
  cbn [rotationSpeed set_rotationSpeed].
  rewrite (turn_drift k t L R).
  destruct (turn_constants k t) as [Ct _].
  rewrite (constants_maxRotationSpeed _ _ Ct).
  assert (M : maxRotationSpeed t = maxRotationSpeed s)
    by (apply constants_maxRotationSpeed; exact C).
  assert (D : rotationDeceleration t = rotationDeceleration s)
    by (unfold constants in C; congruence).
  assert (P : rotationDamping t = rotationDamping s)
    by (unfold constants in C; congruence).
  rewrite Rt, M, D, P. reflexivity.
Qed.

(** The drift with the constants of lines 109-110. *)
Lemma drift_potential (r : Q) :
  let r' := drift r (5 # 10000) (95 # 100) in
  yawPotential r' (5 # 10000) <= (95 # 100) * yawPotential r (5 # 10000) /\
  ((95 # 100) * yawPotential r (5 # 10000) < 1 # 10000 -> r' = 0) /\
  (0 <= r -> 0 <= r' /\ r' <= (95 # 100) * r) /\
  (- (39 # 100000) <= r -> r < 0 -> r' == (r + (5 # 10000)) * (95 # 100)).
Proof.
  intro r'. subst r'. unfold drift, yawPotential. cbv zeta.
  js_unfold.
  destruct (Qle_bool r 0) eqn:A; js_fact A; simpl negb; cbv iota;
  [ destruct (Qle_bool 0 r) eqn:B; js_fact B; simpl negb; cbv iota
  | destruct (Qle_bool 0 (r - (5 # 10000))) eqn:B; js_fact B; simpl negb; cbv iota ];
  js_split; simpl negb in *; cbv iota in *;
    repeat split; intros; try reflexivity; try lra.
Qed.










Section YawDrift.

Context {host : Host}.


End YawDrift.

Section YawRest.

Context {host : Host}.


(** X6: the drift is one-sided.  With the constants of lines 101-111 and no
    rudder flag, a yaw rate to starboard that is smaller in magnitude than
    0.00039 does not decay: line 328 adds the whole [rotationDeceleration],
    so the frame leaves the rate [(r + 0.0005) * 0.95], which is to port. *)
Theorem small_starboard_rate_swings_to_port (c : Clock) (w : World) (sh : Ship) :
  ship w = Some sh ->
  constants (shipStats w) = constants initialStats ->
  left (keys w) = false -> right (keys w) = false ->
  let r := rotationSpeed (shipStats w) in
  let r' := rotationSpeed (shipStats (updatePhysics c w)) in
  - (39 # 100000) <= r -> r < 0 ->
  r' == (r + (5 # 10000)) * (95 # 100) /\ 0 < r'.
Proof.
  intros L C Lf Rt r r' Lo Hi. subst r r'.
  rewrite (updatePhysics_shipStats c w sh L).
  rewrite (kinematics_drift (keys w) (shipStats w) Lf Rt).
  unfold constants in C. simpl in C. injection C as _ _ _ M _ D P.
  rewrite M, D, P.
  destruct (drift_potential (rotationSpeed (shipStats w))) as (_ & _ & _ & X).
  cbv zeta in X. specialize (X Lo Hi). revert X Lo Hi.
  generalize (drift (rotationSpeed (shipStats w)) (5 # 10000) (95 # 100)) as d.
  generalize (rotationSpeed (shipStats w)) as r.
  intros r d X Lo Hi. js_arith.
Qed.

End YawRest.

(** Two frames of starboard rudder at rest, then none: the yaw rate goes
    from -0.0001 to +0.00038. *)
Lemma small_starboard_rate_swings_to_port_witness :
  let w := run [Keydown "KeyD"; AnimationFrame (at_time 0); AnimationFrame (at_time 16);
                Keyup "KeyD"]
               (afloat (flags false false false false) true) in
  let r := rotationSpeed (shipStats w) in
  let r' := rotationSpeed (shipStats (updatePhysics (at_time 33) w)) in
  r == - (1 # 10000) /\ r' == (r + (5 # 10000)) * (95 # 100) /\ 0 < r'.
Proof.
  intros w r r'. split; [vm_compute; reflexivity|].
  destruct (ship w) as [sh|] eqn:L; [|vm_compute in L; discriminate L].
  apply (small_starboard_rate_swings_to_port (at_time 33) w sh L).
  - vm_compute; reflexivity.
  - vm_compute; reflexivity.
  - vm_compute; reflexivity.
  - vm_compute; discriminate.
  - vm_compute; reflexivity.
Defined.


(** ** A vessel left alone, and port against starboard *)

Lemma drift_at_rest (r dec damp : Q) : r == 0 -> drift r dec damp = 0.
Proof.
  intro Z. unfold drift.
  assert (G : JS.gt r 0 = false) by (apply gt_false; lra).
  assert (L : JS.lt r 0 = false) by (apply lt_false; lra).
  rewrite G. cbv zeta. rewrite L.
  assert (P : r * damp == 0) by (rewrite Z; ring).
  assert (A : JS.lt (JS.abs (r * damp)) (1 # 10000) = true).
  { apply lt_true. assert (X := abs_zero _ P). lra. }
  rewrite A. reflexivity.
Qed.

Lemma clamp_symmetric_zero (m : Q) : 0 <= m -> JS.max (JS.min 0 m) (- m) == 0.
Proof. intro M. js_arith. Qed.

Lemma clamp_half_zero (x m : Q) :
  0 <= m -> x == 0 -> JS.max (JS.min x m) (- m / 2) == 0.
Proof. intros M Z. js_arith. Qed.

(** With no flag held, a motion state at rest stays at rest. *)
Lemma kinematics_at_rest (k : Keys) (s : ShipStats) :
  forward k = false -> backward k = false -> left k = false -> right k = false ->
  0 <= maxSpeed s -> 0 <= maxRotationSpeed s ->
  speed s == 0 -> rotationSpeed s == 0 ->
  speed (kinematics k s) == 0 /\ rotationSpeed (kinematics k s) == 0.
Proof.
  intros F B L R M MR Zs Zr. split.
  - rewrite kinematics_speed. unfold clampSpeed. cbn [speed set_speed].
    destruct (accelerate_constants k s) as [C _].
    rewrite (constants_maxSpeed _ _ C).
    apply clamp_half_zero; [exact M|]. apply accelerate_at_rest; assumption.
  - rewrite (kinematics_drift k s L R), (drift_at_rest _ _ _ Zr).
    apply clamp_symmetric_zero. exact MR.
Qed.

Lemma accelerate_mirror (k : Keys) (s : ShipStats) :
  speed (accelerate (swapRudder k) (mirror s)) = speed (accelerate k s).
Proof.
  unfold accelerate, swapRudder, mirror. cbn [forward backward].
  destruct (forward k); [reflexivity|].
  destruct (backward k); [reflexivity|].
  cbv zeta. cbn [speed set_rotationSpeed deceleration].
  destruct (JS.gt (speed s) 0); cbn [speed set_speed set_rotationSpeed deceleration].
  - destruct (JS.lt (speed s - deceleration s) 0);
      cbn [speed set_speed set_rotationSpeed deceleration];
      match goal with |- context [JS.lt (JS.abs ?x) ?y] => destruct (JS.lt (JS.abs x) y) end;
      reflexivity.
  - destruct (JS.lt (speed s) 0);
      cbn [speed set_speed set_rotationSpeed deceleration];
      match goal with |- context [JS.lt (JS.abs ?x) ?y] => destruct (JS.lt (JS.abs x) y) end;
      reflexivity.
Qed.

Lemma kinematics_mirror_speed (k : Keys) (s : ShipStats) :
  speed (kinematics (swapRudder k) (mirror s)) = speed (kinematics k s) /\
  turnInfluence (kinematics (swapRudder k) (mirror s)) = turnInfluence (kinematics k s) /\
  direction (kinematics (swapRudder k) (mirror s)) = direction (kinematics k s).
Proof.
  assert (S : speed (kinematics (swapRudder k) (mirror s)) = speed (kinematics k s)).
  { rewrite !kinematics_speed. unfold clampSpeed. cbn [speed set_speed].
    rewrite accelerate_mirror.
    destruct (accelerate_constants (swapRudder k) (mirror s)) as [C1 _].
    destruct (accelerate_constants k s) as [C2 _].
    rewrite (constants_maxSpeed _ _ C1), (constants_maxSpeed _ _ C2). reflexivity. }
  assert (M : maxSpeed (kinematics (swapRudder k) (mirror s)) = maxSpeed (kinematics k s)).
  { rewrite (constants_maxSpeed _ _ (kinematics_constants (swapRudder k) (mirror s))).
    rewrite (constants_maxSpeed _ _ (kinematics_constants k s)). reflexivity. }
  split; [exact S|].
  unfold turnInfluence, speedFactor, direction. rewrite S, M. split; reflexivity.
Qed.

Lemma clamp_odd (x y m : Q) :
  0 <= m -> y == - x -> JS.max (JS.min y m) (- m) == - JS.max (JS.min x m) (- m).
Proof. intros M E. js_arith. Qed.

(** X7: with exactly one rudder flag held, port and starboard are mirror
    images: exchanging the two flags and negating the yaw rate negates the
    yaw rate the frame computes and leaves its speed as it is. *)
Theorem rudder_is_mirror_symmetric (k : Keys) (s : ShipStats) :
  left k = negb (right k) ->
  0 <= maxRotationSpeed s ->
  rotationSpeed (kinematics (swapRudder k) (mirror s)) == - rotationSpeed (kinematics k s) /\
  speed (kinematics (swapRudder k) (mirror s)) = speed (kinematics k s).
Proof.
  intros X M.
  destruct (kinematics_mirror_speed k s) as (S & T & D).
  split; [|exact S].
  destruct (right k) eqn:R; simpl in X.
  - rewrite (kinematics_right k s X R).
    rewrite (kinematics_left (swapRudder k) (mirror s)) by exact R.
    rewrite T, D. apply clamp_odd; [exact M|].
    unfold mirror. cbn [rotationSpeed set_rotationSpeed rotationAcceleration]. ring.
  - rewrite (kinematics_left k s X).
    rewrite (kinematics_right (swapRudder k) (mirror s)) by (simpl; assumption).
    rewrite T, D. apply clamp_odd; [exact M|].
    unfold mirror. cbn [rotationSpeed set_rotationSpeed rotationAcceleration]. ring.
Qed.

Lemma rudder_is_mirror_symmetric_witness :
  let k := flags true false true false in
  let s := set_rotationSpeed (3 # 1000) (set_speed (1 # 2) initialStats) in
  rotationSpeed (kinematics (swapRudder k) (mirror s)) == - rotationSpeed (kinematics k s) /\
  speed (kinematics (swapRudder k) (mirror s)) = speed (kinematics k s).
Proof.
  intros k s. apply (rudder_is_mirror_symmetric k s).
  - reflexivity.
  - vm_compute; discriminate.
Defined.

Section Idle.

Context {host : Host}.

Lemma updatePhysics_vessel (c : Clock) (w : World) (sh : Ship) :
  ship w = Some sh ->
  ship (updatePhysics c w) = ship (moveShip sh w) /\
  shipGroup (updatePhysics c w) = shipGroup (moveShip sh w).
Proof.
  intro L. unfold updatePhysics. rewrite L.
  destruct (cameraLogic_frame c (moveShip sh w)) as (_ & _ & S & G & _).
  unfold updateReadouts, updateWater, set_document, set_waterTime.
  cbn [ship shipGroup]. split; assumption.
Qed.

(** X8: a loaded vessel at rest with no flag held stays where it is: after
    the frame its speed and yaw rate are zero, its yaw and position are
    what they were, and its roll is 0.95 of what it was. *)
Theorem idle_vessel_stays_put (c : Clock) (w : World) (sh : Ship) :
  ship w = Some sh ->
  keys w = flags false false false false ->
  0 <= maxSpeed (shipStats w) -> 0 <= maxRotationSpeed (shipStats w) ->
  speed (shipStats w) == 0 -> rotationSpeed (shipStats w) == 0 ->
  let w' := updatePhysics c w in
  speed (shipStats w') == 0 /\ rotationSpeed (shipStats w') == 0 /\
  rotation_y (shipGroup w') == rotation_y (shipGroup w) /\
  position (shipGroup w') =v= position (shipGroup w) /\
  exists sh', ship w' = Some sh' /\ rotation_z sh' == (95 # 100) * rotation_z sh.
Proof.
  intros L K M MR Zs Zr w'. subst w'.
  destruct (kinematics_at_rest (keys w) (shipStats w)) as [S R];
    try assumption; try (rewrite K; reflexivity).
  destruct (updatePhysics_vessel c w sh L) as [E G].
  rewrite (updatePhysics_shipStats c w sh L), E, G.
  split; [exact S|]. split; [exact R|].
  unfold moveShip, translateZ. cbn [shipGroup ship rotation_y position].
  split; [rewrite R; ring|]. split.
  - unfold v3eq, THREE.add, THREE.multiplyScalar. cbn [vx vy vz].
    rewrite !Qred_correct, S. repeat split; ring.
  - eexists. split; [reflexivity|]. cbn [rotation_z].
    unfold THREE.MathUtils_lerp. rewrite R. ring.
Qed.

End Idle.

Lemma idle_vessel_stays_put_witness :
  let w := afloat (flags false false false false) true in
  let w' := updatePhysics (at_time 0) w in
  speed (shipStats w') == 0 /\ rotationSpeed (shipStats w') == 0 /\
  rotation_y (shipGroup w') == rotation_y (shipGroup w) /\
  position (shipGroup w') =v= position (shipGroup w) /\
  exists sh', ship w' = Some sh' /\ rotation_z sh' == (95 # 100) * rotation_z {| rotation_z := 0 |}.
Proof.
  intros w w'.
  apply (idle_vessel_stays_put (at_time 0) w {| rotation_z := 0 |}).
  - reflexivity.
  - reflexivity.
  - vm_compute; discriminate.
  - vm_compute; discriminate.
  - reflexivity.
  - reflexivity.
Defined.

(** ** The keyboard *)

Section Keyboard.

Context {host : Host}.

(** X9: the two codes of a direction write one flag: pressing either sets
    it and leaves the other three flags alone, and releasing either clears
    it, also when it was the other code that was pressed and is still
    down. *)
Theorem alias_keys_share_a_flag (a : Action) (c1 c2 : string) (w : World) :
  isCodeOf a c1 -> isCodeOf a c2 ->
  flag a (keys (keydown c1 w)) = true /\
  flag a (keys (keyup c2 (keydown c1 w))) = false /\
  (forall b : Action, b <> a ->
     flag b (keys (keydown c1 w)) = flag b (keys w) /\
     flag b (keys (keyup c2 (keydown c1 w))) = flag b (keys w)).
Proof.
  intros H1 H2.
  destruct a; destruct H1 as [-> | ->]; destruct H2 as [-> | ->];
    (split; [reflexivity|]); (split; [reflexivity|]);
    intros b N; destruct b; try (now elim N); split; reflexivity.
Qed.

(** X10: the pan override of [KeyH] and [Space] takes effect only when the
    toggle exists and is not checked; in follow mode, and on a page without
    the toggle, the key press changes nothing.  Releasing the key always
    puts the left button back on rotate. *)
Theorem pan_only_in_free_roam (code : string) (w : World) :
  code = "KeyH"%string \/ code = "Space"%string ->
  (cameraToggle (document w) = Some false ->
   mouseButtons_LEFT (controls (keydown code w)) = THREE.PAN) /\
  (cameraToggle (document w) <> Some false -> keydown code w = w) /\
  mouseButtons_LEFT (controls (keyup code w)) = THREE.ROTATE.
Proof.
  intros [-> | ->]; unfold keydown, keyup; simpl;
    (split; [intros ->; reflexivity|]); (split; [|reflexivity]);
    intro N; destruct (cameraToggle (document w)) as [[|]|];
    try reflexivity; now elim N.
Qed.

(** X11: [KeyC] flips the toggle when the page has one, and pressing it
    twice gives back the world as it was. *)
Theorem camera_key_twice_is_identity (w : World) :
  cameraToggle (document (keydown "KeyC" w)) = option_map negb (cameraToggle (document w)) /\
  keydown "KeyC" (keydown "KeyC" w) = w.
Proof.
  split; [reflexivity|].
  destruct w as [st k sh g cam ctl win wt [t sv hv]].
  unfold keydown. simpl. unfold set_document, set_cameraToggle. simpl.
  destruct t as [[|]|]; reflexivity.
Qed.

End Keyboard.

Lemma alias_keys_share_a_flag_witness :
  let w := afloat (flags false false false true) true in
  flag Forward (keys (keydown "ArrowUp" w)) = true /\
  flag Forward (keys (keyup "KeyW" (keydown "ArrowUp" w))) = false /\
  (forall b : Action, b <> Forward ->
     flag b (keys (keydown "ArrowUp" w)) = flag b (keys w) /\
     flag b (keys (keyup "KeyW" (keydown "ArrowUp" w))) = flag b (keys w)).
Proof.
  intro w. apply (alias_keys_share_a_flag Forward "ArrowUp" "KeyW" w).
  - left; reflexivity.
  - right; reflexivity.
Defined.

Lemma pan_only_in_free_roam_witness :
  let w := afloat (flags false false false false) false in
  let v := afloat (flags false false false false) true in
  mouseButtons_LEFT (controls (keydown "Space" w)) = THREE.PAN /\
  keydown "Space" v = v /\
  mouseButtons_LEFT (controls (keyup "Space" (keydown "Space" w))) = THREE.ROTATE.
Proof.
  intros w v.
  destruct (pan_only_in_free_roam "Space" w (or_intror eq_refl)) as (A & _ & _).
  destruct (pan_only_in_free_roam "Space" v (or_intror eq_refl)) as (_ & B & _).
  destruct (pan_only_in_free_roam "Space" (keydown "Space" w) (or_intror eq_refl))
    as (_ & _ & C).
  split; [apply A; reflexivity|]. split; [apply B; discriminate | exact C].
Defined.

(** ** The easing curve and free roam *)

Lemma cube_monotone (u v : Q) : u <= v -> u * (u * u) <= v * (v * v).
Proof.
  intro H.
  assert (S : 0 <= v * v + u * v + u * u) by nra.
  assert (P : 0 <= (v - u) * (v * v + u * v + u * u))
    by (apply Qmult_le_0_compat; lra).
  assert (E : v * (v * v) - u * (u * u) == (v - u) * (v * v + u * v + u * u)) by ring.
  lra.
Qed.

Lemma easeOutCubic_cube (e : Q) :
  easeOutCubic e ==
  1 - (1 - JS.min (e / 1500) 1) * ((1 - JS.min (e / 1500) 1) * (1 - JS.min (e / 1500) 1)).
Proof. unfold easeOutCubic, JS.pow. simpl Qpower. ring. Qed.

Lemma easeOutCubic_monotone (e e' : Q) : e <= e' -> easeOutCubic e <= easeOutCubic e'.
Proof.
  intro H. rewrite !easeOutCubic_cube.
  assert (P : JS.min (e / 1500) 1 <= JS.min (e' / 1500) 1) by js_arith.
  assert (C := cube_monotone (1 - JS.min (e' / 1500) 1) (1 - JS.min (e / 1500) 1)).
  lra.
Qed.

Lemma easeOutCubic_range (e : Q) :
  (0 <= e -> 0 <= easeOutCubic e /\ easeOutCubic e <= 1) /\
  (e < 0 -> easeOutCubic e < 0) /\
  (e == 0 -> easeOutCubic e == 0).
Proof.
  rewrite easeOutCubic_cube.
  assert (C0 := cube_monotone 0 (1 - JS.min (e / 1500) 1)).
  assert (C1 := cube_monotone (1 - JS.min (e / 1500) 1) 1).
  assert (C2 := cube_monotone 1 (1 - JS.min (e / 1500) 1)).
  split; [intro H; split | split; intro H].
  - assert (P : JS.min (e / 1500) 1 <= 1) by js_arith.
    assert (Q0 : 0 <= JS.min (e / 1500) 1) by js_arith. lra.
  - assert (P : JS.min (e / 1500) 1 <= 1) by js_arith. lra.
  - assert (P : JS.min (e / 1500) 1 < 0) by js_arith.
    assert (S : 0 < (1 - JS.min (e / 1500) 1) * (1 - JS.min (e / 1500) 1) - 1) by nra.
    assert (T : 0 < (1 - JS.min (e / 1500) 1)
                    * ((1 - JS.min (e / 1500) 1) * (1 - JS.min (e / 1500) 1)) - 1) by nra.
    lra.
  - assert (P : JS.min (e / 1500) 1 == 0) by js_arith.
    rewrite P. ring.
Qed.

Lemma lerpVectors_at_start (v1 v2 : Vector3) (alpha : Q) :
  alpha == 0 -> THREE.lerpVectors v1 v2 alpha =v= v1.
Proof.
  intro H. unfold THREE.lerpVectors, v3eq. cbn [vx vy vz].
  rewrite !Qred_correct, H. repeat split; ring.
Qed.

Section FreeRoam.

Context {host : Host}.

Lemma cameraLogic_transit (c : Clock) (w : World) (t0 : Q) (p0 p1 : Vector3) :
  isFollowMode (document w) = false ->
  window w = transitionVars true t0 p0 p1 ->
  camera_position (camera (cameraLogic c w))
  = THREE.lerpVectors p0 p1 (easeOutCubic (c 0%nat - t0)).
Proof.
  intros F W. unfold cameraLogic. rewrite F, W. simpl orDefault.
  cbv zeta. cbv iota. cbv beta. reflexivity.
Qed.

(** X12: during a transition the camera sits at
    [start + (target - start) * ease] with the ease-out cubic of the time
    elapsed since the capture: the ease never decreases as time passes, it
    is [0] at the capture time and within [0, 1] from then on, so the
    camera starts at the captured start and stays between the two points;
    a clock reading earlier than the capture gives a negative ease, that
    is a camera behind the start. *)
Theorem transition_camera_between
        (c : Clock) (w : World) (sh : Ship) (t0 : Q) (p0 p1 : Vector3) :
  ship w = Some sh ->
  isFollowMode (document w) = false ->
  window w = transitionVars true t0 p0 p1 ->
  let e := c 0%nat - t0 in
  camera_position (camera (animate c w)) = THREE.lerpVectors p0 p1 (easeOutCubic e) /\
  (0 <= e -> 0 <= easeOutCubic e /\ easeOutCubic e <= 1) /\
  (e == 0 -> camera_position (camera (animate c w)) =v= p0) /\
  (e < 0 -> easeOutCubic e < 0) /\
  (forall e' : Q, e <= e' -> easeOutCubic e <= easeOutCubic e').
Proof.
  intros L F W e.
  assert (R : ship (render w) = Some sh) by exact L.
  assert (P : camera_position (camera (animate c w))
              = THREE.lerpVectors p0 p1 (easeOutCubic e)).
  { unfold animate.
    destruct (updatePhysics_camera c (render w) sh R) as (_ & -> & _).
    apply (cameraLogic_transit c (moveShip sh (render w)) t0 p0 p1); assumption. }
  destruct (easeOutCubic_range e) as (A & B & Z).
  split; [exact P|]. split; [exact A|]. split.
  - intro H. rewrite P. apply lerpVectors_at_start, Z, H.
  - split; [exact B|]. intros e' H. apply easeOutCubic_monotone, H.
Qed.




End FreeRoam.

Lemma transition_camera_between_witness :
  let w := animate (at_time 0) (afloat (flags true false false false) false) in
  let c := at_time 750 in
  let p0 := vec3 30 30 100 in
  let p1 := vec3 0 60 150 in
  let e := c 0%nat - 0 in
  camera_position (camera (animate c w)) = THREE.lerpVectors p0 p1 (easeOutCubic e) /\
  (0 <= e -> 0 <= easeOutCubic e /\ easeOutCubic e <= 1) /\
  (e == 0 -> camera_position (camera (animate c w)) =v= p0) /\
  (e < 0 -> easeOutCubic e < 0) /\
  (forall e' : Q, e <= e' -> easeOutCubic e <= easeOutCubic e').
Proof.
  intros w c p0 p1 e.
  destruct (ship w) as [sh|] eqn:L; [|vm_compute in L; discriminate L].
  apply (transition_camera_between c w sh 0 p0 p1 L).
  - reflexivity.
  - vm_compute; reflexivity.
Defined.


(** ** The two copies of the script *)

Section Copies.

Context {host : Host}.

Lemma writeText_option_map (el : option string) (text : string) :
  writeText el text = option_map (fun _ => text) el.
Proof. destruct el as [old|]; [apply writeText_some | reflexivity]. Qed.

(** X14: in follow mode the script of [src/main.js] moves the vessel, the
    camera, the water and the readouts exactly as the copy without a camera
    toggle does; the two differ only in the transition variables and the
    orbit controls, which the copy never writes. *)
Theorem follow_mode_agrees_with_the_copy (c : Clock) (w : World) :
  isFollowMode (document w) = true ->
  let a := updatePhysics c w in
  let b := Part000.updatePhysics w in
  shipStats a = shipStats b /\ keys a = keys b /\ ship a = ship b /\
  shipGroup a = shipGroup b /\ camera a = camera b /\
  waterTime a = waterTime b /\ document a = document b /\
  window b = window w /\ controls b = controls w.
Proof.
  intros F a b. subst a b.
  unfold updatePhysics, Part000.updatePhysics.
  destruct (ship w) as [sh|] eqn:L; [|repeat split; reflexivity].
  unfold cameraLogic.
  assert (F' : isFollowMode (document (moveShip sh w)) = true) by exact F.
  rewrite F'. cbv zeta.
  unfold updateReadouts, updateWater, set_document, set_waterTime, set_window,
    set_controls, set_camera.
  cbn [shipStats keys ship shipGroup camera controls window waterTime document
       cameraToggle speedVal headingVal].
  rewrite !writeText_option_map.
  repeat split; reflexivity.
Qed.

End Copies.

Lemma follow_mode_agrees_with_the_copy_witness :
  let w := afloat (flags true false true false) true in
  let a := updatePhysics (at_time 0) w in
  let b := Part000.updatePhysics w in
  shipStats a = shipStats b /\ keys a = keys b /\ ship a = ship b /\
  shipGroup a = shipGroup b /\ camera a = camera b /\
  waterTime a = waterTime b /\ document a = document b /\
  window b = window w /\ controls b = controls w.
Proof.
  intro w. apply (follow_mode_agrees_with_the_copy (at_time 0) w). reflexivity.
Defined.

(** ** The heading readout *)

Lemma trunc_value (x y : Q) : x == y -> JS.trunc x = JS.trunc y.
Proof.
  intro H. unfold JS.trunc.
  assert (E : Qle_bool 0 x = Qle_bool 0 y) by now rewrite H.
  rewrite E. destruct (Qle_bool 0 y).
  - now rewrite H.
  - unfold Qceiling. now rewrite H.
Qed.

Lemma rem_value (x y d : Q) : x == y -> JS.rem x d == JS.rem y d.
Proof.
  intro H. unfold JS.rem.
  assert (E : JS.trunc (x / d) = JS.trunc (y / d))
    by (apply trunc_value; now rewrite H).
  rewrite E, H. reflexivity.
Qed.

Lemma rem_360_range (x : Q) : 0 <= x -> 0 <= JS.rem x 360 /\ JS.rem x 360 < 360.
Proof.
  intro H. unfold JS.rem, JS.trunc.
  assert (X : x == 360 * (x / 360)) by (field; lra).
  assert (P : 0 <= x / 360) by lra.
  apply Qle_bool_iff in P. rewrite P.
  assert (F1 := Qfloor_le (x / 360)).
  assert (F2 := Qlt_floor (x / 360)).
  rewrite inject_Z_plus in F2. change (inject_Z 1) with 1 in F2.
  revert X F1 F2. generalize (inject_Z (Qfloor (x / 360))) as f, (x / 360) as q.
  intros q f X F1 F2. split; lra.
Qed.

Lemma toFixed0_small (big : Q -> string) (h : Q) :
  0 <= h -> h < 360 ->
  JS.toFixed big 0 h = JS.digits (Qfloor (h + (1 # 2))) /\
  (0 <= Qfloor (h + (1 # 2)) <= 360)%Z.
Proof.
  intros H0 H1. split.
  - rewrite (toFixed_unsigned big 0 h H0). unfold JS.fixedDigits.
    assert (B : 360 < 10 ^ 21) by (vm_compute; reflexivity).
    assert (G : JS.ge h (10 ^ 21) = false) by (apply ge_false; lra).
    rewrite G. cbv zeta. simpl Nat.eqb. cbv iota.
    assert (E : h * 10 ^ Z.of_nat 0 + (1 # 2) == h + (1 # 2))
      by (simpl Qpower; ring).
    now rewrite E.
  - assert (F1 := Qfloor_le (h + (1 # 2))).
    assert (F2 := Qlt_floor (h + (1 # 2))).
    rewrite inject_Z_plus in F2. change (inject_Z 1) with 1 in F2.
    split.
    + apply Zlt_succ_le. change (Z.succ 0) with 1%Z.
      assert (X : inject_Z (-1) < inject_Z (Qfloor (h + (1 # 2))))
        by (change (inject_Z (-1)) with (- (1)); lra).
      rewrite <- Zlt_Qlt in X. lia.
    + assert (X : inject_Z (Qfloor (h + (1 # 2))) < inject_Z 361)
        by (change (inject_Z 361) with 361; lra).
      rewrite <- Zlt_Qlt in X. lia.
Qed.

Section Heading.

Context {host : Host}.

Lemma updatePhysics_headingVal (c : Clock) (w : World) (sh : Ship) :
  ship w = Some sh ->
  headingVal (document (updatePhysics c w)) =
  writeText (headingVal (document w))
            (currentHeading bigToString (shipGroup (updatePhysics c w))).
Proof.
  intro L. destruct (updatePhysics_vessel c w sh L) as [_ G]. rewrite G.
  unfold updatePhysics. rewrite L.
  unfold updateReadouts, updateWater, set_document, set_waterTime. simpl.
  destruct (cameraLogic_frame c (moveShip sh w)) as (_ & _ & _ & E & _ & D).
  rewrite E, D. reflexivity.
Qed.

(** X15: when the heading element exists, a frame leaves in it the digits
    of a whole number from 0 to 360: the yaw in degrees, sign dropped,
    reduced into [0, 360) and then rounded to the nearest whole number, so
    that ["360"] itself can be shown.  A yaw and its negative show the same
    heading. *)
Theorem heading_readout_range (c : Clock) (w : World) (sh : Ship) (old : string) :
  ship w = Some sh ->
  headingVal (document w) = Some old ->
  let g := shipGroup (updatePhysics c w) in
  let h := JS.rem (JS.abs (rotation_y g * (180 / JS.PI))) 360 in
  0 <= h /\ h < 360 /\
  headingVal (document (updatePhysics c w)) = Some (JS.digits (Qfloor (h + (1 # 2)))) /\
  (0 <= Qfloor (h + (1 # 2)) <= 360)%Z /\
  (forall g' : Group,
      rotation_y g' == - rotation_y g ->
      currentHeading bigToString g' = currentHeading bigToString g).
Proof.
  intros L E g h.
  destruct (rem_360_range (JS.abs (rotation_y g * (180 / JS.PI)))) as [H0 H1];
    [apply abs_nonneg|]. fold h in H0, H1.
  destruct (toFixed0_small bigToString h H0 H1) as [T N].
  split; [exact H0|]. split; [exact H1|]. split.
  - rewrite (updatePhysics_headingVal c w sh L), E, writeText_some.
    f_equal. exact T.
  - split; [exact N|]. intros g' M. unfold currentHeading.
    assert (A : JS.abs (rotation_y g' * (180 / JS.PI))
                == JS.abs (rotation_y g * (180 / JS.PI))).
    { rewrite <- (abs_opp (rotation_y g * (180 / JS.PI))).
      apply abs_value. rewrite M. ring. }
    assert (R := rem_value _ _ 360 A).
    destruct (rem_360_range (JS.abs (rotation_y g' * (180 / JS.PI)))) as [K0 K1];
      [apply abs_nonneg|].
    rewrite (toFixed_unsigned _ 0 _ K0), (toFixed_unsigned _ 0 _ H0).
    apply fixedDigits_value; [apply bigToString_value | exact R].
Qed.

End Heading.

(** A little short of a full turn to port the readout shows ["360"]; the
    same yaw to starboard shows the same. *)
Lemma heading_readout_range_witness :
  let w := afloat (flags false false false false) true in
  let yawed := fun y : Q =>
    set_shipGroup {| position := vec3 0 0 0; rotation_y := y;
                     matrixWorld := {| origin := vec3 0 0 0; heading := 0 |} |} w in
  let g := shipGroup (updatePhysics (at_time 0) (yawed (628 # 100))) in
  let h := JS.rem (JS.abs (rotation_y g * (180 / JS.PI))) 360 in
  headingVal (document (updatePhysics (at_time 0) (yawed (628 # 100)))) = Some "360"%string /\
  headingVal (document (updatePhysics (at_time 0) (yawed (- (628 # 100))))) = Some "360"%string /\
  0 <= h /\ h < 360 /\
  headingVal (document (updatePhysics (at_time 0) (yawed (628 # 100))))
    = Some (JS.digits (Qfloor (h + (1 # 2)))) /\
  (0 <= Qfloor (h + (1 # 2)) <= 360)%Z /\
  (forall g' : Group,
      rotation_y g' == - rotation_y g ->
      currentHeading bigToString g' = currentHeading bigToString g).
Proof.
  intros w yawed g h.
  split; [vm_compute; reflexivity|]. split; [vm_compute; reflexivity|].
  apply (heading_readout_range (at_time 0) (yawed (628 # 100)) {| rotation_z := 0 |} "0").
  - reflexivity.
  - reflexivity.
Defined.

(** ** The page around the scene *)

Section PageFacts.

Context {host : Host}.

Lemma keydown_keys (code : string) (w : World) :
  keys (keydown code w) =
  match keyMap code with
  | Some id => set_key (onScreenKeys id) true (keys w)
  | None => keys w
  end.
Proof.
  unfold keydown, keyMap, isCode.
  by_code code "ArrowUp"%string; [reflexivity|].
  by_code code "KeyW"%string; [reflexivity|].
  by_code code "ArrowDown"%string; [reflexivity|].
  by_code code "KeyS"%string; [reflexivity|].
  by_code code "ArrowLeft"%string; [reflexivity|].
  by_code code "KeyA"%string; [reflexivity|].
  by_code code "ArrowRight"%string; [reflexivity|].
  by_code code "KeyD"%string; [reflexivity|].
  destruct (String.eqb code "KeyC"); [reflexivity|].
  destruct (String.eqb code "KeyH" || String.eqb code "Space")%bool; [|reflexivity].
  destruct (cameraToggle (document w)) as [[|]|]; reflexivity.
Qed.

Lemma keyup_keys (code : string) (w : World) :
  keys (keyup code w) =
  match keyMap code with
  | Some id => set_key (onScreenKeys id) false (keys w)
  | None => keys w
  end.
Proof.
  unfold keyup, keyMap, isCode.
  by_code code "ArrowUp"%string; [reflexivity|].
  by_code code "KeyW"%string; [reflexivity|].
  by_code code "ArrowDown"%string; [reflexivity|].
  by_code code "KeyS"%string; [reflexivity|].
  by_code code "ArrowLeft"%string; [reflexivity|].
  by_code code "KeyA"%string; [reflexivity|].
  by_code code "ArrowRight"%string; [reflexivity|].
  by_code code "KeyD"%string; [reflexivity|].
  destruct (String.eqb code "KeyH" || String.eqb code "Space")%bool; reflexivity.
Qed.

Lemma keydown_toggle (code : string) (w : World) :
  cameraToggle (document (keydown code w)) =
  if String.eqb code "KeyC" then option_map negb (cameraToggle (document w))
  else cameraToggle (document w).
Proof.
  unfold keydown, isCode.
  by_code code "ArrowUp"%string; [reflexivity|].
  by_code code "KeyW"%string; [reflexivity|].
  by_code code "ArrowDown"%string; [reflexivity|].
  by_code code "KeyS"%string; [reflexivity|].
  by_code code "ArrowLeft"%string; [reflexivity|].
  by_code code "KeyA"%string; [reflexivity|].
  by_code code "ArrowRight"%string; [reflexivity|].
  by_code code "KeyD"%string; [reflexivity|].
  destruct (String.eqb code "KeyC"); [reflexivity|].
  destruct (String.eqb code "KeyH" || String.eqb code "Space")%bool; [|reflexivity].
  destruct (cameraToggle (document w)) as [[|]|] eqn:T; simpl; rewrite ?T; reflexivity.
Qed.

Lemma keydown_LEFT (code : string) (w : World) :
  mouseButtons_LEFT (controls (keydown code w)) =
  if negb (String.eqb code "KeyC") && isCode code "KeyH" "Space" then
    match cameraToggle (document w) with
    | Some false => THREE.PAN
    | _ => mouseButtons_LEFT (controls w)
    end
  else mouseButtons_LEFT (controls w).
Proof.
  unfold keydown, isCode.
  by_code code "ArrowUp"%string; [reflexivity|].
  by_code code "KeyW"%string; [reflexivity|].
  by_code code "ArrowDown"%string; [reflexivity|].
  by_code code "KeyS"%string; [reflexivity|].
  by_code code "ArrowLeft"%string; [reflexivity|].
  by_code code "KeyA"%string; [reflexivity|].
  by_code code "ArrowRight"%string; [reflexivity|].
  by_code code "KeyD"%string; [reflexivity|].
  destruct (String.eqb code "KeyC"); [reflexivity|]. cbn [negb andb].
  destruct (String.eqb code "KeyH" || String.eqb code "Space")%bool; [|reflexivity].
  destruct (cameraToggle (document w)) as [[|]|]; reflexivity.
Qed.

Lemma keyup_LEFT (code : string) (w : World) :
  mouseButtons_LEFT (controls (keyup code w)) =
  if isCode code "KeyH" "Space" then THREE.ROTATE else mouseButtons_LEFT (controls w).
Proof.
  unfold keyup, isCode.
  by_code code "ArrowUp"%string; [reflexivity|].
  by_code code "KeyW"%string; [reflexivity|].
  by_code code "ArrowDown"%string; [reflexivity|].
  by_code code "KeyS"%string; [reflexivity|].
  by_code code "ArrowLeft"%string; [reflexivity|].
  by_code code "KeyA"%string; [reflexivity|].
  by_code code "ArrowRight"%string; [reflexivity|].
  by_code code "KeyD"%string; [reflexivity|].
  destruct (String.eqb code "KeyH" || String.eqb code "Space")%bool; reflexivity.
Qed.

Lemma animate_inputs (c : Clock) (w : World) :
  keys (animate c w) = keys w /\
  cameraToggle (document (animate c w)) = cameraToggle (document w) /\
  mouseButtons_LEFT (controls (animate c w)) = mouseButtons_LEFT (controls w).
Proof.
  unfold animate. destruct (ship w) as [sh|] eqn:L.
  - assert (R : ship (render w) = Some sh) by exact L.
    unfold updatePhysics. rewrite R.
    destruct (cameraLogic_frame c (moveShip sh (render w))) as (_ & K & _ & _ & _ & D).
    unfold updateReadouts, updateWater, set_document, set_waterTime.
    cbn [keys document controls cameraToggle]. rewrite K, D.
    split; [reflexivity|]. split; [reflexivity|].
    unfold cameraLogic.
    destruct (isFollowMode _); [reflexivity|].
    destruct (orDefault (wasFollowMode _) true);
      [|destruct (orDefault (isTransitioning _) false)];
      cbv zeta; cbv iota; cbv beta;
      try (destruct (JS.ge _ 1); reflexivity).
    destruct (orbitUpdate _ _ _) as [[o tgt] [pos q]]. reflexivity.
  - rewrite updatePhysics_unloaded by exact L. repeat split; reflexivity.
Qed.

End PageFacts.

Lemma keyActive_set_keyActive (id0 id : KeyId) (b : option bool) (st : Styles) :
  keyActive (set_keyActive id0 b st) id =
  match id0, id with
  | key_w, key_w | key_s, key_s | key_a, key_a | key_d, key_d => b
  | _, _ => keyActive st id
  end.
Proof. destruct id0, id; reflexivity. Qed.

Lemma updateUIState_keeps (d : Document) (st : Styles) :
  (forall id, keyActive (updateUIState d st) id = keyActive st id) /\
  cursor (updateUIState d st) = cursor st /\
  statsCard_visible (updateUIState d st) = statsCard_visible st /\
  statsToggle_active (updateUIState d st) = statsToggle_active st /\
  body_statsVisible (updateUIState d st) = body_statsVisible st.
Proof.
  unfold updateUIState.
  destruct (cameraToggle d) as [c|], (panHint_disabled st) as [h|];
    repeat split; try reflexivity; intro id; destruct id; reflexivity.
Qed.

Lemma setKeyActive_keeps (code : string) (b : bool) (st : Styles) :
  panHint_disabled (setKeyActive code b st) = panHint_disabled st /\
  cursor (setKeyActive code b st) = cursor st /\
  statsCard_visible (setKeyActive code b st) = statsCard_visible st /\
  statsToggle_active (setKeyActive code b st) = statsToggle_active st /\
  body_statsVisible (setKeyActive code b st) = body_statsVisible st.
Proof.
  unfold setKeyActive.
  destruct (keyMap code) as [id|]; [|repeat split; reflexivity].
  destruct (keyActive st id); repeat split; reflexivity.
Qed.

Lemma setKeyActive_keyActive (code : string) (b : bool) (st : Styles) (id : KeyId) (x : bool) :
  keyActive (setKeyActive code b st) id = Some x ->
  (keyMap code = Some id /\ x = b) \/
  (keyMap code <> Some id /\ keyActive st id = Some x).
Proof.
  unfold setKeyActive.
  destruct (keyMap code) as [id0|] eqn:M; [|intro H; right; split; [discriminate|exact H]].
  destruct (keyActive st id0) as [y|] eqn:K.
  - rewrite keyActive_set_keyActive.
    destruct id0, id; intro H;
      try (left; split; [reflexivity | congruence]);
      right; (split; [discriminate | exact H]).
  - intro H. right. split; [|exact H]. intro E. injection E as ->. congruence.
Qed.

Lemma flag_set_key (a0 a : Action) (b : bool) (k : Keys) :
  flag a (set_key a0 b k) =
  match a0, a with
  | Forward, Forward | Backward, Backward | Left, Left | Right, Right => b
  | _, _ => flag a k
  end.
Proof. destruct a0, a; reflexivity. Qed.

Lemma flag_other_key (id0 id : KeyId) (b : bool) (k : Keys) :
  id0 <> id -> flag (onScreenKeys id) (set_key (onScreenKeys id0) b k) = flag (onScreenKeys id) k.
Proof. intro N. destruct id0, id; try reflexivity; now elim N. Qed.

Lemma flag_same_key (id : KeyId) (b : bool) (k : Keys) :
  flag (onScreenKeys id) (set_key (onScreenKeys id) b k) = b.
Proof. destruct id; reflexivity. Qed.

Section PageInvariants.

Context {host : Host}.

Lemma pageKeydown_styles (code : string) (p : Page) :
  (forall id, keyActive (styles (pageKeydown code p)) id
              = keyActive (setKeyActive code true (styles p)) id) /\
  statsCard_visible (styles (pageKeydown code p)) = statsCard_visible (styles p) /\
  statsToggle_active (styles (pageKeydown code p)) = statsToggle_active (styles p) /\
  body_statsVisible (styles (pageKeydown code p)) = body_statsVisible (styles p).
Proof.
  destruct (setKeyActive_keeps code true (styles p)) as (_ & _ & A & B & C).
  unfold pageKeydown. cbn [styles].
  destruct (String.eqb code "KeyC").
  - destruct (cameraToggle (document (world p))); [|repeat split; assumption].
    destruct (updateUIState_keeps (document (keydown code (world p)))
                                  (setKeyActive code true (styles p)))
      as (K & _ & A' & B' & C').
    rewrite A', B', C'. repeat split; try assumption; intro id; apply K.
  - destruct (isCode code "KeyH" "Space"); [|repeat split; assumption].
    destruct (cameraToggle (document (world p))) as [[|]|];
      repeat split; try assumption; intro id; destruct id; reflexivity.
Qed.

Lemma pageKeyup_styles (code : string) (p : Page) :
  (forall id, keyActive (styles (pageKeyup code p)) id
              = keyActive (setKeyActive code false (styles p)) id) /\
  panHint_disabled (styles (pageKeyup code p)) = panHint_disabled (styles p) /\
  statsCard_visible (styles (pageKeyup code p)) = statsCard_visible (styles p) /\
  statsToggle_active (styles (pageKeyup code p)) = statsToggle_active (styles p) /\
  body_statsVisible (styles (pageKeyup code p)) = body_statsVisible (styles p).
Proof.
  destruct (setKeyActive_keeps code false (styles p)) as (H & _ & A & B & C).
  unfold pageKeyup. cbn [styles].
  destruct (isCode code "KeyH" "Space"); repeat split; try assumption;
    intro id; destruct id; reflexivity.
Qed.

Lemma highlights_step (e : PageEvent) (p : Page) :
  highlightsMatch p -> highlightsMatch (pageHandle e p).
Proof.
  intros I id b H. destruct e; simpl pageHandle in *.
  - destruct (pageKeydown_styles code p) as (K & _). rewrite K in H.
    change (world (pageKeydown code p)) with (keydown code (world p)).
    rewrite keydown_keys.
    destruct (setKeyActive_keyActive _ _ _ _ _ H) as [[M ->] | [M H']].
    + rewrite M. symmetry. apply flag_same_key.
    + destruct (keyMap code) as [id0|]; [|apply I; exact H'].
      rewrite flag_other_key by congruence. apply I; exact H'.
  - destruct (pageKeyup_styles code p) as (K & _). rewrite K in H.
    change (world (pageKeyup code p)) with (keyup code (world p)).
    rewrite keyup_keys.
    destruct (setKeyActive_keyActive _ _ _ _ _ H) as [[M ->] | [M H']].
    + rewrite M. symmetry. apply flag_same_key.
    + destruct (keyMap code) as [id0|]; [|apply I; exact H'].
      rewrite flag_other_key by congruence. apply I; exact H'.
  - unfold pagePointerStart in *.
    destruct (keyActive (styles p) id0) as [y|] eqn:K; [|apply I; exact H].
    cbn [world styles] in *. unfold startAction. cbn [keys set_keys].
    rewrite keyActive_set_keyActive in H.
    destruct id0, id;
      first [ injection H as <-; symmetry; apply flag_same_key
            | rewrite flag_other_key by discriminate; apply I; exact H ].
  - unfold pagePointerEnd in *.
    destruct (keyActive (styles p) id0) as [y|] eqn:K; [|apply I; exact H].
    cbn [world styles] in *. unfold endAction. cbn [keys set_keys].
    rewrite keyActive_set_keyActive in H.
    destruct id0, id;
      first [ injection H as <-; symmetry; apply flag_same_key
            | rewrite flag_other_key by discriminate; apply I; exact H ].
  - unfold pageToggleChange in *.
    destruct (cameraToggle (document (world p))); [|apply I; exact H].
    cbn [world styles] in *.
    destruct (updateUIState_keeps (document (handle ToggleClick (world p))) (styles p))
      as (K & _). rewrite K in H. apply I; exact H.
  - cbn [world styles] in *. apply I.
    unfold statsClick in H.
    destruct (statsCard_visible (styles p)), (statsToggle_active (styles p));
      try exact H; destruct id; exact H.
  - unfold pageLoaded in *. cbn [world styles] in *.
    change (keys (onLoad (world p))) with (keys (world p)). apply I.
    destruct (loading_display (styles p)); [destruct id|]; exact H.
  - cbn [world styles] in *.
    destruct (animate_inputs clock (world p)) as (-> & _). apply I; exact H.
Qed.

Lemma highlights_run (es : list PageEvent) (p : Page) :
  highlightsMatch p -> highlightsMatch (pageRun es p).
Proof.
  revert p. induction es as [|e es IH]; intros p I; simpl; [exact I|].
  apply IH, highlights_step, I.
Qed.

(** X16: on a page whose markup starts with no key highlighted, every
    on-screen key that exists carries the class [active] exactly when its
    flag in [keys] is set, after any run of key, pointer, toggle, load and
    frame events. *)
Theorem highlight_follows_flag (d : Document) (st : Styles) (es : list PageEvent) :
  (forall id, keyActive st id <> Some true) ->
  highlightsMatch (pageRun es (initialPage d st)).
Proof.
  intro N. apply highlights_run. intros id b H.
  unfold initialPage in H. cbn [styles world] in *.
  assert (K : keyActive st id = Some b).
  { destruct (cameraToggle d); [|exact H].
    destruct (updateUIState_keeps d st) as (K & _). rewrite K in H. exact H. }
  destruct b; [elim (N id K)|]. destruct id; reflexivity.
Qed.

End PageInvariants.

Lemma highlight_follows_flag_witness :
  highlightsMatch
    (pageRun [KeyPressed "ArrowUp"; PointerStarted key_a; Frame (at_time 0);
              KeyReleased "KeyW"; Loaded; PointerEnded key_d]
             (initialPage (page true) plainStyles)).
Proof.
  apply (highlight_follows_flag (page true) plainStyles).
  intro id. destruct id; discriminate.
Defined.

Section PageHints.

Context {host : Host}.

Lemma hint_step (e : PageEvent) (p : Page) :
  hintMatches p -> hintMatches (pageHandle e p).
Proof.
  intros I. destruct e; simpl pageHandle.
  - unfold hintMatches, pageKeydown. cbn [styles world].
    rewrite keydown_toggle.
    destruct (setKeyActive_keeps code true (styles p)) as (PH & _).
    destruct (String.eqb code "KeyC") eqn:C.
    + destruct (cameraToggle (document (world p))) as [t|] eqn:T; cbn [option_map];
        [|intros b c _ H2; discriminate H2].
      unfold updateUIState. rewrite keydown_toggle, C, T. cbn [option_map].
      destruct (panHint_disabled (setKeyActive code true (styles p))) as [h|] eqn:Q.
      * cbn [panHint_disabled set_panHint]. intros b c H1 H2. congruence.
      * rewrite Q. intros b c H1 _. discriminate H1.
    + intros b c H1 H2. apply (I b c); [|exact H2].
      rewrite <- PH. revert H1.
      destruct (isCode code "KeyH" "Space"); [|exact (fun x => x)].
      destruct (cameraToggle (document (world p))) as [[|]|]; exact (fun x => x).
  - unfold hintMatches. intros b c H1 H2.
    destruct (pageKeyup_styles code p) as (_ & PH & _). rewrite PH in H1.
    apply (I b c H1).
    change (world (pageKeyup code p)) with (keyup code (world p)) in H2.
    destruct (keyup_same code (world p)) as (_ & _ & _ & D). rewrite D in H2. exact H2.
  - unfold pagePointerStart.
    destruct (keyActive (styles p) id) as [y|]; [|exact I].
    intros b c H1 H2. apply (I b c); [|exact H2]. destruct id; exact H1.
  - unfold pagePointerEnd.
    destruct (keyActive (styles p) id) as [y|]; [|exact I].
    intros b c H1 H2. apply (I b c); [|exact H2]. destruct id; exact H1.
  - unfold pageToggleChange.
    destruct (cameraToggle (document (world p))) as [t|] eqn:T; [|exact I].
    unfold hintMatches. cbn [styles world handle]. unfold updateUIState.
    cbn [document set_document cameraToggle set_cameraToggle]. rewrite T.
    cbn [option_map].
    destruct (panHint_disabled (styles p)) as [h|] eqn:Q.
    + cbn [panHint_disabled set_panHint]. intros b c H1 H2. congruence.
    + rewrite Q. intros b c H1 _. discriminate H1.
  - intros b c H1 H2. apply (I b c); [|exact H2].
    cbn [styles] in H1. unfold statsClick in H1.
    destruct (statsCard_visible (styles p)) as [x|], (statsToggle_active (styles p)) as [y|]; exact H1.
  - intros b c H1 H2. apply (I b c); [|exact H2].
    unfold pageLoaded in H1. cbn [styles] in H1.
    destruct (loading_display (styles p)) as [x|]; exact H1.
  - intros b c H1 H2. apply (I b c H1).
    cbn [world] in H2.
    destruct (animate_inputs clock (world p)) as (_ & D & _). rewrite D in H2. exact H2.
Qed.

(** X17: the pan hint carries the class [disabled-hint] exactly when the
    camera toggle is checked, on the page as the script leaves it and after
    any run of events, whether the toggle is changed with the [C] key or
    by a click. *)
Theorem pan_hint_follows_toggle (d : Document) (st : Styles) (es : list PageEvent) :
  hintMatches (pageRun es (initialPage d st)).
Proof.
  assert (G : forall p, hintMatches p -> hintMatches (pageRun es p)).
  { induction es as [|e es IH]; intros p I; simpl; [exact I|].
    apply IH, hint_step, I. }
  apply G. unfold hintMatches, initialPage.
  destruct d as [[t|] sv hv];
    cbn [styles world document initialWorld cameraToggle];
    [|intros b c _ H2; discriminate H2].
  unfold updateUIState. cbn [cameraToggle].
  destruct (panHint_disabled st) as [h|] eqn:Q.
  - cbn [panHint_disabled set_panHint]. intros b c H1 H2. congruence.
  - rewrite Q. intros b c H1 _. discriminate H1.
Qed.

Lemma cursor_step (e : PageEvent) (p : Page) :
  cursorMatches p -> cursorMatches (pageHandle e p).
Proof.
  intro I. unfold cursorMatches in *. destruct e; simpl pageHandle.
  - unfold pageKeydown. cbn [styles world]. rewrite keydown_LEFT.
    destruct (setKeyActive_keeps code true (styles p)) as (_ & Cu & _).
    destruct (String.eqb code "KeyC") eqn:C; cbn [negb andb].
    + destruct (cameraToggle (document (world p))); [|rewrite Cu; exact I].
      destruct (updateUIState_keeps (document (keydown code (world p)))
                                    (setKeyActive code true (styles p))) as (_ & Cu' & _).
      rewrite Cu', Cu. exact I.
    + destruct (isCode code "KeyH" "Space"); [|rewrite Cu; exact I].
      destruct (cameraToggle (document (world p))) as [[|]|];
        try (rewrite Cu; exact I).
      cbn [cursor set_cursor]. split; reflexivity.
  - unfold pageKeyup. cbn [styles world]. rewrite keyup_LEFT.
    destruct (setKeyActive_keeps code false (styles p)) as (_ & Cu & _).
    destruct (isCode code "KeyH" "Space"); [|rewrite Cu; exact I].
    cbn [cursor set_cursor]. split; discriminate.
  - unfold pagePointerStart.
    destruct (keyActive (styles p) id); [|exact I]. destruct id; exact I.
  - unfold pagePointerEnd.
    destruct (keyActive (styles p) id); [|exact I]. destruct id; exact I.
  - unfold pageToggleChange.
    destruct (cameraToggle (document (world p))); [|exact I].
    cbn [styles world].
    destruct (updateUIState_keeps (document (handle ToggleClick (world p))) (styles p))
      as (_ & Cu & _). rewrite Cu. exact I.
  - cbn [styles world]. unfold statsClick.
    destruct (statsCard_visible (styles p)), (statsToggle_active (styles p)); exact I.
  - unfold pageLoaded. cbn [styles world].
    destruct (loading_display (styles p)); exact I.
  - cbn [styles world].
    destruct (animate_inputs clock (world p)) as (_ & _ & ->). exact I.
Qed.

(** X18: on a page whose markup does not start with the grabbing cursor,
    the cursor is [grab] exactly when the left mouse button is mapped to
    panning, after any run of events: [Space] or [H] in free roam sets
    both, releasing either key resets both. *)
Theorem cursor_follows_pan_mode (d : Document) (st : Styles) (es : list PageEvent) :
  cursor st <> "grab"%string ->
  cursorMatches (pageRun es (initialPage d st)).
Proof.
  intro N.
  assert (G : forall p, cursorMatches p -> cursorMatches (pageRun es p)).
  { induction es as [|e es IH]; intros p I; simpl; [exact I|].
    apply IH, cursor_step, I. }
  apply G. unfold cursorMatches, initialPage. cbn [styles world].
  assert (Cu : cursor (match cameraToggle d with
                       | Some _ => updateUIState d st
                       | None => st
                       end) = cursor st).
  { destruct (cameraToggle d); [|reflexivity]. apply updateUIState_keeps. }
  rewrite Cu. cbn. split; [discriminate | intro H; elim (N H)].
Qed.

End PageHints.

(** X19: a click on the statistics button, on a page that has the button
    and the card, sets the card's [mobile-visible], the button's [active]
    and the body's [stats-visible] all to the opposite of what the card
    had, whatever the other two were: one click brings the three into
    step, and a second click gives the card back its first state. *)
Theorem stats_click_resyncs (st : Styles) (v a : bool) :
  statsCard_visible st = Some v ->
  statsToggle_active st = Some a ->
  statsCard_visible (statsClick st) = Some (negb v) /\
  statsToggle_active (statsClick st) = Some (negb v) /\
  body_statsVisible (statsClick st) = negb v /\
  statsInSync (statsClick st) /\
  statsCard_visible (statsClick (statsClick st)) = Some v /\
  (statsInSync st -> statsClick (statsClick st) = st).
Proof.
  intros V A. unfold statsClick at 1 2 3 4. rewrite V, A.
  cbn [statsCard_visible statsToggle_active body_statsVisible set_stats].
  repeat split.
  - exists (negb v). repeat split.
  - unfold statsClick. rewrite V, A.
    cbn [statsCard_visible statsToggle_active set_stats]. now rewrite negb_involutive.
  - intros (x & X1 & X2 & X3). unfold statsClick. rewrite V, A.
    cbn [statsCard_visible statsToggle_active set_stats].
    destruct st. cbn in *. unfold set_stats. cbn.
    rewrite negb_involutive. congruence.
Qed.

Lemma pan_hint_follows_toggle_example :
  panHint_disabled
    (styles (pageRun [KeyPressed "KeyC"; Frame (at_time 0); ToggleChanged; KeyPressed "KeyC"]
                     (initialPage (page true) plainStyles))) = Some false.
Proof. vm_compute. reflexivity. Qed.

Lemma cursor_follows_pan_mode_witness :
  cursorMatches
    (pageRun [KeyPressed "Space"; Frame (at_time 0); KeyPressed "KeyC"; KeyReleased "Space"]
             (initialPage (page false) plainStyles)).
Proof.
  apply (cursor_follows_pan_mode (page false) plainStyles). discriminate.
Defined.

Lemma stats_click_resyncs_witness :
  let st := set_loading None plainStyles in
  statsCard_visible (statsClick st) = Some true /\
  statsToggle_active (statsClick st) = Some true /\
  body_statsVisible (statsClick st) = true /\
  statsInSync (statsClick st) /\
  statsCard_visible (statsClick (statsClick st)) = Some false /\
  (statsInSync st -> statsClick (statsClick st) = st).
Proof.
  intro st. apply (stats_click_resyncs st false false); reflexivity.
Defined.

(** ** Roll, and what the clock does not reach *)

Lemma roll_step (z r : Q) :
  - (2 # 10) <= z -> z <= 2 # 10 -> - (2 # 100) <= r -> r <= 2 # 100 ->
  - (2 # 10) <= THREE.MathUtils_lerp z (r * 10) (1 # 20) /\
  THREE.MathUtils_lerp z (r * 10) (1 # 20) <= 2 # 10.
Proof. intros. unfold THREE.MathUtils_lerp. split; lra. Qed.

Section Roll.

Context {host : Host}.

Lemma roll_invariant (e : Event) (w : World) :
  wellTuned (shipStats w) -> rollWithin (2 # 10) (ship w) ->
  wellTuned (shipStats (handle e w)) /\ rollWithin (2 # 10) (ship (handle e w)).
Proof.
  intros T R. split.
  - destruct (handle_shipStats e w) as [-> | [k ->]];
      [exact T | now apply wellTuned_kinematics].
  - destruct (isInput e) eqn:I.
    + assert (S := input_keeps_scene e w I). unfold scene in S.
      injection S as _ S _ _ _ _ _ _ _ _. rewrite S. exact R.
    + destruct e; try discriminate I; simpl handle.
      * unfold onLoad. cbn [ship set_ship rollWithin rotation_z]. lra.
      * destruct (ship w) as [sh|] eqn:L.
        -- unfold animate.
           assert (L' : ship (render w) = Some sh) by exact L.
           destruct (updatePhysics_vessel clock (render w) sh L') as [-> _].
           unfold moveShip. cbn [ship rollWithin rotation_z].
           destruct T as (C & _ & _).
           assert (M : maxRotationSpeed (shipStats w) = 2 # 100)
             by (rewrite (constants_maxRotationSpeed _ _ C); reflexivity).
           destruct (kinematics_rotationSpeed_clamped (keys w) (shipStats w)) as [B1 B2];
             [rewrite M; lra|].
           rewrite M in B1, B2. cbn [rollWithin] in R.
           change (keys (render w)) with (keys w).
           change (shipStats (render w)) with (shipStats w).
           apply roll_step; lra.
        -- rewrite (animate_unloaded clock w L).
           change (ship (render w)) with (ship w). rewrite L. exact Logic.I.
Qed.

(** X20: in every run from the initial page the roll of the loaded model
    stays within 0.2 radians either way, ten times the largest yaw rate. *)
Theorem roll_stays_within_bounds (d : Document) (es : list Event) :
  rollWithin (2 # 10) (ship (run es (initialWorld d))).
Proof.
  assert (G : forall w, wellTuned (shipStats w) -> rollWithin (2 # 10) (ship w) ->
                        rollWithin (2 # 10) (ship (run es w))).
  { induction es as [|e es IH]; intros w T R; simpl; [exact R|].
    destruct (roll_invariant e w T R) as [T' R']. apply IH; assumption. }
  apply G; [apply wellTuned_initial | exact I].
Qed.

End Roll.

Section ClockFree.

Context {host : Host}.

Lemma keydown_document (code : string) (w : World) :
  document (keydown code w) =
  if String.eqb code "KeyC"
  then set_cameraToggle (option_map negb (cameraToggle (document w))) (document w)
  else document w.
Proof.
  unfold keydown, isCode.
  by_code code "ArrowUp"%string; [reflexivity|].
  by_code code "KeyW"%string; [reflexivity|].
  by_code code "ArrowDown"%string; [reflexivity|].
  by_code code "KeyS"%string; [reflexivity|].
  by_code code "ArrowLeft"%string; [reflexivity|].
  by_code code "KeyA"%string; [reflexivity|].
  by_code code "ArrowRight"%string; [reflexivity|].
  by_code code "KeyD"%string; [reflexivity|].
  destruct (String.eqb code "KeyC"); [reflexivity|].
  destruct (String.eqb code "KeyH" || String.eqb code "Space")%bool; [|reflexivity].
  destruct (cameraToggle (document w)) as [[|]|]; reflexivity.
Qed.

Lemma vessel_animate (c : Clock) (w : World) :
  vessel (animate c w) =
  vessel (match ship w with
          | None => render w
          | Some sh => updateReadouts (updateWater (moveShip sh (render w)))
          end).
Proof.
  unfold animate, updatePhysics. change (ship (render w)) with (ship w).
  destruct (ship w) as [sh|]; [|reflexivity].
  destruct (cameraLogic_frame c (moveShip sh (render w))) as (A & B & C & D & E & F).
  unfold vessel, updateReadouts, updateWater, set_document, set_waterTime.
  cbn [shipStats keys ship shipGroup waterTime document].
  rewrite A, B, C, D, E, F. reflexivity.
Qed.

Lemma vessel_handle (e e' : Event) (w w' : World) :
  sameButClock e e' -> vessel w = vessel w' ->
  vessel (handle e w) = vessel (handle e' w').
Proof.
  intros S V.
  assert (V' := V). unfold vessel in V'. injection V' as V1 V2 V3 V4 V5 V6.
  destruct e; destruct e'; simpl in S; try discriminate S; try (now elim S);
    try (injection S as <-); simpl handle.
  - unfold vessel.
    destruct (keydown_same code w) as (-> & -> & _).
    destruct (keydown_same code w') as (-> & -> & _).
    destruct (keydown_keeps code w) as (-> & _ & -> & _).
    destruct (keydown_keeps code w') as (-> & _ & -> & _).
    rewrite !keydown_keys, !keydown_document. rewrite ?V1, ?V2, ?V3, ?V4, ?V5, ?V6; reflexivity.
  - unfold vessel.
    destruct (keyup_same code w) as (-> & -> & _ & ->).
    destruct (keyup_same code w') as (-> & -> & _ & ->).
    destruct (keyup_keeps code w) as (-> & _ & -> & _).
    destruct (keyup_keeps code w') as (-> & _ & -> & _).
    rewrite !keyup_keys. rewrite ?V1, ?V2, ?V3, ?V4, ?V5, ?V6; reflexivity.
  - unfold vessel, startAction. cbn. rewrite ?V1, ?V2, ?V3, ?V4, ?V5, ?V6; reflexivity.
  - unfold vessel, endAction. cbn. rewrite ?V1, ?V2, ?V3, ?V4, ?V5, ?V6; reflexivity.
  - unfold vessel. cbn. rewrite ?V1, ?V2, ?V3, ?V4, ?V5, ?V6; reflexivity.
  - unfold vessel, onLoad. cbn. rewrite ?V1, ?V2, ?V3, ?V4, ?V5, ?V6; reflexivity.
  - rewrite !vessel_animate. rewrite V3.
    destruct (ship w') as [sh|] eqn:L.
    + unfold vessel, updateReadouts, updateWater, moveShip, render, translateZ.
      cbn. rewrite V1, V2, V4, V5, V6. reflexivity.
    + unfold vessel, render. cbn. rewrite V1, V2, V3, V4, V5, V6, L. reflexivity.
Qed.

(** X21: the clock never reaches the vessel.  Two runs of the same events
    that differ only in what [performance.now()] returns end with the same
    motion state, flags, roll, pose, water clock, toggle and readouts: the
    simulation advances by the frame, and time only drives the camera
    transition. *)
Theorem vessel_ignores_the_clock (es es' : list Event) (w : World) :
  Forall2 sameButClock es es' ->
  vessel (run es w) = vessel (run es' w).
Proof.
  intro F.
  assert (G : forall v v', vessel v = vessel v' -> vessel (run es v) = vessel (run es' v')).
  { induction F as [|e e' es es' S F IH]; intros v v' V; simpl; [exact V|].
    apply IH, vessel_handle; assumption. }
  apply G. reflexivity.
Qed.

End ClockFree.

Lemma vessel_ignores_the_clock_witness :
  let w := afloat (flags true false true false) false in
  vessel (run [AnimationFrame (at_time 0); Keydown "KeyC"; AnimationFrame (at_time 16)] w)
  = vessel (run [AnimationFrame (readings 5 9000); Keydown "KeyC";
                 AnimationFrame (at_time 7)] w).
Proof.
  intro w. apply (vessel_ignores_the_clock _ _ w).
  repeat constructor.
Defined.

(** ** The rudder at rest *)



Section RudderAtRest.

Context {host : Host}.


End RudderAtRest.


(** ** Binary64 rounding

    What the proofs about the binary64 reading of the program rest on:
    [round] is monotone, odd and idempotent, it is within half a unit in the
    last place of its argument, and the doubles of a binade lie on a grid. *)
Module Rounding.

Import Binary64.

(** *** Powers of two *)

Lemma pow2_pos (e : Z) : 0 < pow2 e.
Proof. apply Qpower_0_lt. reflexivity. Qed.

Lemma pow2_add (a b : Z) : pow2 (a + b) == pow2 a * pow2 b.
Proof. apply Qpower_plus. discriminate. Qed.

Lemma pow2_succ (a : Z) : pow2 (a + 1) == 2 * pow2 a.
Proof. rewrite pow2_add. change (pow2 1) with 2. ring. Qed.

Lemma pow2_le (a b : Z) : (a <= b)%Z -> pow2 a <= pow2 b.
Proof. intro H. apply Qpower_le_compat_l; [exact H|]. discriminate. Qed.

Lemma pow2_lt (a b : Z) : (a < b)%Z -> pow2 a < pow2 b.
Proof.
  intro H. assert (L := pow2_le (a + 1) b ltac:(lia)).
  rewrite pow2_succ in L. assert (P := pow2_pos a). lra.
Qed.

Lemma pow2_lt_inv (a b : Z) : pow2 a < pow2 b -> (a < b)%Z.
Proof.
  intro H. destruct (Z_lt_le_dec a b) as [L|L]; [exact L|].
  apply pow2_le in L. lra.
Qed.

Lemma pow2_sub (a b : Z) : pow2 (a - b) == pow2 a / pow2 b.
Proof.
  assert (P := pow2_pos b).
  assert (E : pow2 a == pow2 (a - b) * pow2 b).
  { rewrite <- pow2_add. replace (a - b + b)%Z with a by lia. reflexivity. }
  rewrite E. field. lra.
Qed.

Lemma pow2_Z (n : Z) : (0 <= n)%Z -> pow2 n == inject_Z (2 ^ n).
Proof. intro H. unfold pow2. rewrite Zpower_Qpower by exact H. reflexivity. Qed.

(** *** The binade of a positive number *)

Lemma binade_spec (q : Q) : 0 < q -> pow2 (binade q) <= q /\ q < pow2 (binade q + 1).
Proof.
  intro H. destruct q as [n d]. 
  assert (N : (0 < n)%Z) by (unfold Qlt in H; simpl in H; lia).
  unfold binade. cbn [Qnum Qden].
  set (a := Z.log2 n). set (b := Z.log2 (Z.pos d)).
  assert (A := Z.log2_spec n N). fold a in A.
  assert (B := Z.log2_spec (Z.pos d) ltac:(lia)). fold b in B.
  assert (A0 : (0 <= a)%Z) by apply Z.log2_nonneg.
  assert (B0 : (0 <= b)%Z) by apply Z.log2_nonneg.
  assert (Qn : n # d == inject_Z n / inject_Z (Z.pos d)) by (rewrite Qmake_Qdiv; reflexivity).
  assert (Dp : 0 < inject_Z (Z.pos d)) by (unfold Qlt; simpl; lia).
  assert (Pa : pow2 a <= inject_Z n) by (rewrite pow2_Z by lia; rewrite <- Zle_Qle; lia).
  assert (Pa' : inject_Z n < pow2 (a + 1))
    by (rewrite pow2_Z by lia; rewrite <- Zlt_Qlt; replace (a + 1)%Z with (Z.succ a) by lia; lia).
  assert (Pb : pow2 b <= inject_Z (Z.pos d)) by (rewrite pow2_Z by lia; rewrite <- Zle_Qle; lia).
  assert (Pb' : inject_Z (Z.pos d) < pow2 (b + 1))
    by (rewrite pow2_Z by lia; rewrite <- Zlt_Qlt; replace (b + 1)%Z with (Z.succ b) by lia; lia).
  assert (E1 : pow2 a == pow2 (a - b) * pow2 b).
  { rewrite <- pow2_add. replace (a - b + b)%Z with a by lia. reflexivity. }
  assert (E2 : pow2 (a + 1) == pow2 (a - b) * pow2 (b + 1)).
  { rewrite <- pow2_add. replace (a - b + (b + 1))%Z with (a + 1)%Z by lia. reflexivity. }
  assert (E3 : pow2 (a - b) == 2 * pow2 (a - b - 1)).
  { rewrite <- pow2_succ. replace (a - b - 1 + 1)%Z with (a - b)%Z by lia. reflexivity. }
  assert (E4 : pow2 (a - b + 1) == 2 * pow2 (a - b)) by apply pow2_succ.
  assert (E5 : pow2 (b + 1) == 2 * pow2 b) by apply pow2_succ.
  assert (P1 := pow2_pos (a - b)). assert (P2 := pow2_pos b).
  assert (P3 := pow2_pos (a - b - 1)).
  set (x := n # d) in *.
  assert (X : x * inject_Z (Z.pos d) == inject_Z n).
  { rewrite Qn. field. lra. }
  destruct (Qle_bool (pow2 (a - b)) x) eqn:T.
  - apply Qle_bool_iff in T. split; [exact T|].
    rewrite E4. 
    apply Qnot_le_lt. intro C.
    assert (2 * pow2 (a - b) * inject_Z (Z.pos d) <= x * inject_Z (Z.pos d))
      by (apply Qmult_le_compat_r; lra).
    assert (2 * pow2 (a - b) * pow2 b <= 2 * pow2 (a - b) * inject_Z (Z.pos d))
      by (apply Qmult_le_l; lra).
    nra.
  - assert (T' : x < pow2 (a - b)).
    { apply Qnot_le_lt. intro C. apply Qle_bool_iff in C. congruence. }
    replace (a - b - 1 + 1)%Z with (a - b)%Z by lia.
    split; [|exact T'].
    apply Qnot_lt_le. intro C.
    assert (x * inject_Z (Z.pos d) <= pow2 (a - b - 1) * inject_Z (Z.pos d))
      by (apply Qmult_le_compat_r; lra).
    assert (pow2 (a - b - 1) * inject_Z (Z.pos d) < pow2 (a - b - 1) * pow2 (b + 1))
      by (apply Qmult_lt_l; lra).
    nra.
Qed.

Lemma binade_unique (q : Q) (e : Z) :
  pow2 e <= q -> q < pow2 (e + 1) -> binade q = e.
Proof.
  intros L U. assert (P := pow2_pos e).
  destruct (binade_spec q ltac:(lra)) as [L' U'].
  assert (A : (e < binade q + 1)%Z) by (apply pow2_lt_inv; lra).
  assert (B : (binade q < e + 1)%Z) by (apply pow2_lt_inv; lra).
  lia.
Qed.

Lemma binade_le (x y : Q) : 0 < x -> x <= y -> (binade x <= binade y)%Z.
Proof.
  intros X L.
  destruct (binade_spec x X) as [Lx Ux].
  destruct (binade_spec y ltac:(lra)) as [Ly Uy].
  assert (A : (binade x < binade y + 1)%Z) by (apply pow2_lt_inv; lra).
  lia.
Qed.

(** *** Rounding to the nearest integer, ties to even *)

Lemma nearestEven_cases (x : Q) :
  let f := Qfloor x in
  (nearestEven x = f /\ x - inject_Z f <= 1 # 2) \/
  (nearestEven x = (f + 1)%Z /\ 1 # 2 <= x - inject_Z f).
Proof.
  intro f. unfold nearestEven. fold f.
  destruct (Qcompare (x - inject_Z f) (1 # 2)) eqn:C.
  - cmp_fact C. destruct (Z.even f); [left|right]; split; try reflexivity; lra.
  - cmp_fact C. left. split; [reflexivity|lra].
  - cmp_fact C. right. split; [reflexivity|lra].
Qed.

Lemma floor_bounds (x : Q) : inject_Z (Qfloor x) <= x /\ x < inject_Z (Qfloor x) + 1.
Proof.
  split; [apply Qfloor_le|].
  assert (H := Qlt_floor x). rewrite inject_Z_plus in H. exact H.
Qed.

Lemma nearestEven_error (x : Q) :
  - (1 # 2) <= inject_Z (nearestEven x) - x /\ inject_Z (nearestEven x) - x <= 1 # 2.
Proof.
  destruct (floor_bounds x) as [L U].
  destruct (nearestEven_cases x) as [[-> H]|[-> H]].
  - lra.
  - rewrite inject_Z_plus. change (inject_Z 1) with 1. lra.
Qed.

Lemma nearestEven_comp (x y : Q) : x == y -> nearestEven x = nearestEven y.
Proof.
  intro E. unfold nearestEven. rewrite (Qfloor_comp _ _ E).
  assert (C : Qcompare (x - inject_Z (Qfloor y)) (1 # 2)
              = Qcompare (y - inject_Z (Qfloor y)) (1 # 2)).
  { apply Qcompare_comp; [rewrite E|]; reflexivity. }
  rewrite C. reflexivity.
Qed.

Lemma nearestEven_Z (k : Z) : nearestEven (inject_Z k) = k.
Proof.
  unfold nearestEven. rewrite Qfloor_Z.
  assert (C : Qcompare (inject_Z k - inject_Z k) (1 # 2) = Lt).
  { apply Qlt_alt. setoid_replace (inject_Z k - inject_Z k) with 0 by ring. reflexivity. }
  rewrite C. reflexivity.
Qed.

Lemma nearestEven_le (x y : Q) : x <= y -> (nearestEven x <= nearestEven y)%Z.
Proof.
  intro L.
  assert (F := Qfloor_resp_le _ _ L).
  destruct (floor_bounds x) as [Lx Ux]. destruct (floor_bounds y) as [Ly Uy].
  destruct (Z.eq_dec (Qfloor x) (Qfloor y)) as [E|N].
  - unfold nearestEven. rewrite E.
    destruct (Qcompare (x - inject_Z (Qfloor y)) (1 # 2)) eqn:Cx;
      destruct (Qcompare (y - inject_Z (Qfloor y)) (1 # 2)) eqn:Cy;
      cmp_fact Cx; cmp_fact Cy;
      try (destruct (Z.even (Qfloor y))); try lia; exfalso; lra.
  - destruct (nearestEven_cases x) as [[-> _]|[-> _]];
      destruct (nearestEven_cases y) as [[-> _]|[-> _]]; lia.
Qed.

Lemma inject_Z_pred_opp (k : Z) : inject_Z (- k - 1) == - inject_Z k - 1.
Proof.
  unfold Z.sub. rewrite inject_Z_plus, inject_Z_opp. reflexivity.
Qed.

Lemma floor_opp (x : Q) :
  ~ x == inject_Z (Qfloor x) -> Qfloor (- x) = (- Qfloor x - 1)%Z.
Proof.
  intro N. destruct (floor_bounds x) as [Lx Ux].
  assert (I := inject_Z_pred_opp (Qfloor x)).
  symmetry. apply Z.le_antisymm.
  - assert (G : inject_Z (- Qfloor x - 1) <= - x) by lra.
    apply Qfloor_resp_le in G. rewrite Qfloor_Z in G. exact G.
  - assert (S : inject_Z (Qfloor x) < x).
    { apply Qnot_le_lt. intro C. apply N. lra. }
    assert (K := Qfloor_le (- x)).
    assert (M : inject_Z (Qfloor (- x)) < inject_Z (- Qfloor x)).
    { rewrite inject_Z_opp. lra. }
    rewrite <- Zlt_Qlt in M. lia.
Qed.

Lemma nearestEven_opp (x : Q) : nearestEven (- x) = (- nearestEven x)%Z.
Proof.
  destruct (floor_bounds x) as [Lx Ux].
  destruct (Qeq_dec x (inject_Z (Qfloor x))) as [E|N].
  - rewrite (nearestEven_comp x _ E).
    assert (E' : - x == inject_Z (- Qfloor x)).
    { rewrite inject_Z_opp. rewrite <- E. reflexivity. }
    rewrite (nearestEven_comp _ _ E'). rewrite !nearestEven_Z. reflexivity.
  - assert (F := floor_opp x N).
    assert (I := inject_Z_pred_opp (Qfloor x)).
    assert (S : inject_Z (Qfloor x) < x).
    { apply Qnot_le_lt. intro C. apply N. lra. }
    unfold nearestEven. rewrite F.
    assert (Ev : Z.even (- Qfloor x - 1) = negb (Z.even (Qfloor x))).
    { replace (- Qfloor x - 1)%Z with (- (Z.succ (Qfloor x)))%Z by lia.
      rewrite Z.even_opp, Z.even_succ, <- Z.negb_even. reflexivity. }
    rewrite Ev.
    destruct (Qcompare (x - inject_Z (Qfloor x)) (1 # 2)) eqn:Cx;
      destruct (Qcompare (- x - inject_Z (- Qfloor x - 1)) (1 # 2)) eqn:Cy;
      cmp_fact Cx; cmp_fact Cy;
      try (destruct (Z.even (Qfloor x))); cbn [negb]; try lia; exfalso; lra.
Qed.

(** *** Rounding to binary64 *)

Lemma binade_comp (x y : Q) : 0 < x -> x == y -> binade x = binade y.
Proof.
  intros P E. destruct (binade_spec x P) as [L U].
  symmetry. apply binade_unique; rewrite <- E; assumption.
Qed.

Lemma Qabs_pos_iff (x : Q) : ~ x == 0 -> 0 < Qabs x.
Proof.
  intro N. apply Qabs_case; intro H; apply Qnot_le_lt; intro C; apply N; lra.
Qed.

Lemma Qeq_bool_comp (x y : Q) : x == y -> Qeq_bool x 0 = Qeq_bool y 0.
Proof.
  intro E. destruct (Qeq_bool y 0) eqn:B.
  - apply Qeq_bool_iff. apply Qeq_bool_iff in B. rewrite E. exact B.
  - apply not_true_is_false. intro C. apply Qeq_bool_iff in C.
    assert (D : y == 0) by (rewrite <- E; exact C).
    apply Qeq_bool_iff in D. congruence.
Qed.

Lemma ulp_comp (x y : Q) : x == y -> ulp x = ulp y.
Proof.
  intro E. unfold ulp. rewrite (Qeq_bool_comp _ _ E).
  destruct (Qeq_bool y 0) eqn:B; [reflexivity|].
  f_equal. f_equal. apply binade_comp; [|rewrite E; reflexivity].
  apply Qabs_pos_iff. intro C. rewrite E in C. apply Qeq_bool_iff in C. congruence.
Qed.

Lemma ulp_min (x : Q) : (-1074 <= ulp x)%Z.
Proof. unfold ulp. destruct (Qeq_bool x 0); lia. Qed.

Lemma ulp_opp (x : Q) : ulp (- x) = ulp x.
Proof.
  unfold ulp.
  assert (B : Qeq_bool (- x) 0 = Qeq_bool x 0).
  { destruct (Qeq_bool x 0) eqn:B.
    - apply Qeq_bool_iff. apply Qeq_bool_iff in B. lra.
    - apply not_true_is_false. intro C. apply Qeq_bool_iff in C.
      assert (D : x == 0) by lra. apply Qeq_bool_iff in D. congruence. }
  rewrite B. destruct (Qeq_bool x 0) eqn:T; [reflexivity|].
  f_equal. f_equal. apply binade_comp; [|apply Qabs_opp].
  apply Qabs_pos_iff. intro C. assert (D : x == 0) by lra.
  apply Qeq_bool_iff in D. congruence.
Qed.

(** What [round] computes, as a number. *)
Lemma round_value (x : Q) :
  round x == inject_Z (nearestEven (x / pow2 (ulp x))) * pow2 (ulp x).
Proof. unfold round. apply Qred_correct. Qed.

Lemma round_comp (x y : Q) : x == y -> round x = round y.
Proof.
  intro E. unfold round. rewrite (ulp_comp _ _ E).
  apply Qred_complete.
  assert (D : x / pow2 (ulp y) == y / pow2 (ulp y)) by (rewrite E; reflexivity).
  rewrite (nearestEven_comp _ _ D). reflexivity.
Qed.

Lemma round_canon (x : Q) : Qred (round x) = round x.
Proof. unfold round. apply Qred_complete, Qred_correct. Qed.

Lemma round_eq (x y : Q) : round x == round y -> round x = round y.
Proof.
  intro E. rewrite <- (round_canon x), <- (round_canon y). apply Qred_complete. exact E.
Qed.

Lemma round_0 : round 0 = 0.
Proof. reflexivity. Qed.

Lemma round_opp (x : Q) : round (- x) == - round x.
Proof.
  rewrite !round_value. rewrite (ulp_opp x).
  assert (E : - x / pow2 (ulp x) == - (x / pow2 (ulp x))).
  { unfold Qdiv. ring. }
  rewrite (nearestEven_comp _ _ E), nearestEven_opp, inject_Z_opp. ring.
Qed.

(** The error is at most half a unit in the last place. *)
Lemma round_error (x : Q) :
  - pow2 (ulp x - 1) <= round x - x /\ round x - x <= pow2 (ulp x - 1).
Proof.
  rewrite round_value. set (u := ulp x).
  assert (P := pow2_pos u). assert (P' := pow2_pos (u - 1)).
  assert (H : pow2 u == 2 * pow2 (u - 1)).
  { rewrite <- pow2_succ. replace (u - 1 + 1)%Z with u by lia. reflexivity. }
  destruct (nearestEven_error (x / pow2 u)) as [L U].
  set (n := inject_Z (nearestEven (x / pow2 u))) in *.
  assert (X : x == x / pow2 u * pow2 u) by (field; lra).
  set (s := x / pow2 u) in *.
  rewrite X. nra.
Qed.

Lemma ulp_nonzero (x : Q) :
  ~ x == 0 -> ulp x = Z.max (binade (Qabs x) - 52) (-1074).
Proof.
  intro N. unfold ulp. destruct (Qeq_bool x 0) eqn:B; [|reflexivity].
  apply Qeq_bool_iff in B. contradiction.
Qed.

Lemma ulp_le (x : Q) (e : Z) :
  Qabs x < pow2 (e + 1) -> (-1074 <= e - 52)%Z -> (ulp x <= e - 52)%Z.
Proof.
  intros B M. 
  destruct (Qeq_dec x 0) as [Hz|N].
  - rewrite (ulp_comp _ _ Hz). change (ulp 0) with (-1074)%Z. exact M.
  - rewrite (ulp_nonzero x N). assert (Pz := Qabs_pos_iff x N).
    destruct (binade_spec _ Pz) as [L U].
    assert ((binade (Qabs x) < e + 1)%Z) by (apply pow2_lt_inv; lra).
    lia.
Qed.

Lemma round_error_below (x : Q) (e : Z) :
  Qabs x < pow2 (e + 1) -> (-1074 <= e - 52)%Z ->
  - pow2 (e - 53) <= round x - x /\ round x - x <= pow2 (e - 53).
Proof.
  intros B M. assert (U := ulp_le x e B M).
  destruct (round_error x) as [L H].
  assert (K : pow2 (ulp x - 1) <= pow2 (e - 53)) by (apply pow2_le; lia).
  lra.
Qed.

(** Rounding keeps the sign. *)
Lemma round_nonneg (x : Q) : 0 <= x -> 0 <= round x.
Proof.
  intro H. rewrite round_value. assert (P := pow2_pos (ulp x)).
  assert (D : 0 <= x / pow2 (ulp x)).
  { apply Qle_shift_div_l; [exact P|]. lra. }
  assert (N := nearestEven_le _ _ D).
  change 0 with (inject_Z 0) in N at 1. rewrite nearestEven_Z in N.
  assert (I : 0 <= inject_Z (nearestEven (x / pow2 (ulp x)))).
  { change 0 with (inject_Z 0). rewrite <- Zle_Qle. exact N. }
  nra.
Qed.

Lemma round_nonpos (x : Q) : x <= 0 -> round x <= 0.
Proof.
  intro H. assert (N := round_nonneg (- x) ltac:(lra)).
  rewrite round_opp in N. lra.
Qed.

(** A power of two that bounds a number bounds its rounding. *)
Lemma round_below_pow2 (x : Q) (e : Z) :
  0 < x -> x <= pow2 e -> (-1074 <= e)%Z -> round x <= pow2 e.
Proof.
  intros X B M.
  assert (N : ~ x == 0) by lra.
  assert (A : Qabs x == x) by (apply Qabs_pos; lra).
  destruct (binade_spec (Qabs x) ltac:(lra)) as [L _].
  assert (Bl : (binade (Qabs x) < e + 1)%Z).
  { apply pow2_lt_inv. assert (K := pow2_lt e (e + 1) ltac:(lia)). lra. }
  assert (U : (ulp x <= e)%Z) by (rewrite (ulp_nonzero x N); lia).
  rewrite round_value. set (u := ulp x) in *. assert (P := pow2_pos u).
  assert (S : pow2 e == inject_Z (2 ^ (e - u)) * pow2 u).
  { rewrite <- pow2_Z by lia. rewrite <- pow2_add. replace (e - u + u)%Z with e by lia.
    reflexivity. }
  assert (D : x / pow2 u <= inject_Z (2 ^ (e - u))).
  { apply Qle_shift_div_r; [exact P|]. rewrite <- S. exact B. }
  assert (K := nearestEven_le _ _ D). rewrite nearestEven_Z in K.
  rewrite Zle_Qle in K. rewrite S. apply Qmult_le_compat_r; lra.
Qed.

Lemma round_above_pow2 (x : Q) (e : Z) :
  pow2 e <= x -> (-1074 <= e)%Z -> pow2 e <= round x.
Proof.
  intros B M. assert (Pe := pow2_pos e).
  assert (N : ~ x == 0) by lra.
  assert (A : Qabs x == x) by (apply Qabs_pos; lra).
  destruct (binade_spec (Qabs x) ltac:(lra)) as [L H].
  set (b := binade (Qabs x)) in *.
  assert (Bl : (e < b + 1)%Z) by (apply pow2_lt_inv; lra).
  assert (U : (ulp x <= b)%Z) by (rewrite (ulp_nonzero x N); fold b; lia).
  rewrite round_value. set (u := ulp x) in *. assert (P := pow2_pos u).
  assert (S : pow2 b == inject_Z (2 ^ (b - u)) * pow2 u).
  { rewrite <- pow2_Z by lia. rewrite <- pow2_add. replace (b - u + u)%Z with b by lia.
    reflexivity. }
  assert (D : inject_Z (2 ^ (b - u)) <= x / pow2 u).
  { apply Qle_shift_div_l; [exact P|]. rewrite <- S. lra. }
  assert (K := nearestEven_le _ _ D). rewrite nearestEven_Z in K.
  rewrite Zle_Qle in K.
  assert (E : pow2 e <= pow2 b) by (apply pow2_le; lia).
  assert (G : inject_Z (2 ^ (b - u)) * pow2 u
              <= inject_Z (nearestEven (x / pow2 u)) * pow2 u)
    by (apply Qmult_le_compat_r; lra).
  lra.
Qed.

Lemma round_le_pos (x y : Q) : 0 < x -> x <= y -> round x <= round y.
Proof.
  intros X L.
  assert (Nx : ~ x == 0) by lra. assert (Ny : ~ y == 0) by lra.
  assert (Ax : Qabs x == x) by (apply Qabs_pos; lra).
  assert (Ay : Qabs y == y) by (apply Qabs_pos; lra).
  assert (Bxy : (binade (Qabs x) <= binade (Qabs y))%Z) by (apply binade_le; lra).
  destruct (binade_spec (Qabs x) ltac:(lra)) as [Lx Hx].
  destruct (binade_spec (Qabs y) ltac:(lra)) as [Ly Hy].
  assert (Ux := ulp_nonzero x Nx). assert (Uy := ulp_nonzero y Ny).
  set (bx := binade (Qabs x)) in *. set (by_ := binade (Qabs y)) in *.
  destruct (Z.eq_dec (ulp x) (ulp y)) as [E|N].
  - rewrite !round_value. rewrite E. assert (P := pow2_pos (ulp y)).
    assert (D : x / pow2 (ulp y) <= y / pow2 (ulp y)).
    { apply Qmult_le_compat_r; [exact L|]. apply Qlt_le_weak, Qinv_lt_0_compat, P. }
    assert (K := nearestEven_le _ _ D). rewrite Zle_Qle in K.
    apply Qmult_le_compat_r; lra.
  - set (e := Z.max (bx + 1) (-1074)).
    assert (Eb : (e <= by_)%Z) by lia.
    assert (R1 : round x <= pow2 e).
    { apply round_below_pow2; [exact X| |lia].
      assert (pow2 (bx + 1) <= pow2 e) by (apply pow2_le; lia). lra. }
    assert (R2 : pow2 by_ <= round y).
    { apply round_above_pow2; [lra|lia]. }
    assert (R3 : pow2 e <= pow2 by_) by (apply pow2_le; exact Eb).
    lra.
Qed.

(** Rounding is monotone. *)
Theorem round_le (x y : Q) : x <= y -> round x <= round y.
Proof.
  intro L.
  destruct (Qlt_le_dec 0 x) as [X|X].
  - apply round_le_pos; assumption.
  - destruct (Qlt_le_dec y 0) as [Y|Y].
    + assert (K := round_le_pos (- y) (- x) ltac:(lra) ltac:(lra)).
      rewrite !round_opp in K. lra.
    + assert (A := round_nonpos x X). assert (B := round_nonneg y Y). lra.
Qed.

(** A multiple of its own unit in the last place is kept. *)
Lemma round_exact (x : Q) (n : Z) : x == inject_Z n * pow2 (ulp x) -> round x == x.
Proof.
  intro E. rewrite round_value. assert (P := pow2_pos (ulp x)).
  assert (D : x / pow2 (ulp x) == inject_Z n).
  { rewrite E at 1. field. lra. }
  rewrite (nearestEven_comp _ _ D), nearestEven_Z. symmetry. exact E.
Qed.

(** Multiples of [2^g] round to multiples of [2^g]. *)
Lemma round_grid (x : Q) (g n : Z) :
  (-1074 <= g)%Z -> x == inject_Z n * pow2 g ->
  exists m : Z, round x == inject_Z m * pow2 g.
Proof.
  intros M E. destruct (Z_le_gt_dec g (ulp x)) as [C|C].
  - exists (nearestEven (x / pow2 (ulp x)) * 2 ^ (ulp x - g))%Z.
    rewrite round_value, inject_Z_mult, <- pow2_Z by lia.
    assert (S : pow2 (ulp x) == pow2 (ulp x - g) * pow2 g).
    { rewrite <- pow2_add. replace (ulp x - g + g)%Z with (ulp x) by lia. reflexivity. }
    rewrite S at 2. ring.
  - exists n. rewrite <- E. apply (round_exact x (n * 2 ^ (g - ulp x))).
    rewrite inject_Z_mult, <- pow2_Z by lia. rewrite E at 1.
    assert (S : pow2 g == pow2 (g - ulp x) * pow2 (ulp x)).
    { rewrite <- pow2_add. replace (g - ulp x + ulp x)%Z with g by lia. reflexivity. }
    rewrite S at 1. ring.
Qed.

Lemma ulp_ge (x : Q) (e : Z) : pow2 e <= Qabs x -> (e - 52 <= ulp x)%Z.
Proof.
  intro B. assert (Pe := pow2_pos e).
  assert (N : ~ x == 0).
  { intro C. assert (A : Qabs x == 0) by (rewrite C; reflexivity). lra. }
  rewrite (ulp_nonzero x N).
  destruct (binade_spec (Qabs x) ltac:(lra)) as [L H].
  assert ((e < binade (Qabs x) + 1)%Z) by (apply pow2_lt_inv; lra).
  lia.
Qed.

Lemma Qabs_scaled (x p : Q) : 0 < p -> Qabs (x / p) == Qabs x / p.
Proof.
  intro P. unfold Qdiv. rewrite Qabs_Qmult, Qabs_Qinv, (Qabs_pos p) by lra. reflexivity.
Qed.

(** The significand has at most 53 bits. *)
Lemma round_mantissa (x : Q) :
  exists n : Z, round x == inject_Z n * pow2 (ulp x) /\ (Z.abs n <= 2 ^ 53)%Z.
Proof.
  exists (nearestEven (x / pow2 (ulp x))). split; [apply round_value|].
  set (u := ulp x). assert (P := pow2_pos u).
  assert (B : Qabs x <= pow2 (u + 53)).
  { destruct (Qeq_dec x 0) as [Hz|N].
    - assert (A : Qabs x == 0) by (rewrite Hz; reflexivity).
      assert (K := pow2_pos (u + 53)). lra.
    - destruct (binade_spec (Qabs x) (Qabs_pos_iff x N)) as [_ H].
      assert (U := ulp_nonzero x N). fold u in U.
      assert (pow2 (binade (Qabs x) + 1) <= pow2 (u + 53)) by (apply pow2_le; lia).
      lra. }
  assert (S : pow2 (u + 53) == inject_Z (2 ^ 53) * pow2 u).
  { rewrite pow2_add. change (pow2 53) with (inject_Z (2 ^ 53)). ring. }
  apply Qabs_Qle_condition in B. destruct B as [B1 B2].
  assert (D1 : inject_Z (- 2 ^ 53) <= x / pow2 u).
  { apply Qle_shift_div_l; [exact P|]. rewrite inject_Z_opp. lra. }
  assert (D2 : x / pow2 u <= inject_Z (2 ^ 53)).
  { apply Qle_shift_div_r; [exact P|]. lra. }
  apply nearestEven_le in D1. apply nearestEven_le in D2.
  rewrite nearestEven_Z in D1, D2. lia.
Qed.

Lemma round_fixed_eq (x : Q) : round (round x) == round x -> round (round x) = round x.
Proof.
  intro E. rewrite <- (round_canon (round x)). rewrite <- (round_canon x) at 2.
  apply Qred_complete. exact E.
Qed.

(** Rounding is idempotent: its results are binary64 numbers. *)
Theorem round_round (x : Q) : round (round x) = round x.
Proof.
  apply round_fixed_eq.
  destruct (round_mantissa x) as (n & E & B).
  set (u := ulp x) in *. set (r := round x) in *.
  assert (Mu := ulp_min x). fold u in Mu.
  assert (A : Qabs r == inject_Z (Z.abs n) * pow2 u).
  { rewrite E, Qabs_Qmult, (Qabs_pos (pow2 u)) by (apply Qlt_le_weak, pow2_pos).
    reflexivity. }
  assert (U : (ulp r <= u + 1)%Z).
  { assert (V : (ulp r <= u + 53 - 52)%Z); [|lia]. apply ulp_le; [|lia].
    rewrite A. replace (u + 53 + 1)%Z with (54 + u)%Z by lia. rewrite pow2_add.
    change (pow2 54) with (inject_Z (2 ^ 54)).
    apply Qmult_lt_compat_r; [apply pow2_pos|]. rewrite <- Zlt_Qlt. lia. }
  destruct (Z_le_gt_dec (ulp r) u) as [C|C].
  - apply (round_exact r (n * 2 ^ (u - ulp r))).
    rewrite inject_Z_mult, <- pow2_Z by lia. rewrite E at 1.
    assert (S : pow2 u == pow2 (u - ulp r) * pow2 (ulp r)).
    { rewrite <- pow2_add. replace (u - ulp r + ulp r)%Z with u by lia. reflexivity. }
    rewrite S at 1. ring.
  - assert (Ur : ulp r = (u + 1)%Z) by lia.
    (* the unit grew: the significand is [2^53] *)
    assert (Hn : (Z.abs n = 2 ^ 53)%Z).
    { destruct (Z.eq_dec (Z.abs n) (2 ^ 53)) as [K|K]; [exact K|]. exfalso.
      assert (V : (ulp r <= u)%Z).
      { assert (V : (ulp r <= u + 52 - 52)%Z); [|lia]. apply ulp_le; [|lia].
        rewrite A. replace (u + 52 + 1)%Z with (53 + u)%Z by lia. rewrite pow2_add.
        change (pow2 53) with (inject_Z (2 ^ 53)).
        apply Qmult_lt_compat_r; [apply pow2_pos|]. rewrite <- Zlt_Qlt. lia. }
      lia. }
    apply (round_exact r (n / 2)). rewrite Ur, pow2_succ. rewrite E at 1.
    assert (T : (n = 2 * (n / 2))%Z).
    { assert (W : (n = 2 ^ 53 \/ n = - 2 ^ 53)%Z) by lia.
      destruct W as [W|W]; rewrite W; reflexivity. }
    rewrite T at 1. rewrite inject_Z_mult. change (inject_Z 2) with 2. ring.
Qed.

(** A binary64 number of magnitude at least [2^e] is a multiple of
    [2^(e-52)]. *)
Lemma float_grid (x : Q) (e : Z) :
  round x == x -> pow2 e <= Qabs x ->
  exists n : Z, x == inject_Z n * pow2 (e - 52).
Proof.
  intros F B. assert (U := ulp_ge x e B).
  destruct (round_mantissa x) as (n & E & _).
  exists (n * 2 ^ (ulp x - (e - 52)))%Z.
  transitivity (round x); [symmetry; exact F|].
  rewrite E, inject_Z_mult, <- pow2_Z by lia.
  assert (S : pow2 (ulp x) == pow2 (ulp x - (e - 52)) * pow2 (e - 52)).
  { rewrite <- pow2_add. replace (ulp x - (e - 52) + (e - 52))%Z with (ulp x) by lia.
    reflexivity. }
  rewrite S at 1. ring.
Qed.

End Rounding.
